(** * SBF schedule editor: the time/position arithmetic of [ScheduleApp]

    A shallow embedding of the parts of [src/script.js] that place acts on
    the timeline, move them by drag and drop, change the time window and
    select acts for a member's export, followed by the other handlers of
    the editor: the hour markers, the forms for acts, members and stages,
    the team export and its ordering, the list of members of an export,
    the download name, the loading of a project file, the reset and the
    start-up from the stored snapshot.

    Number model.  JavaScript numbers are IEEE-754 doubles.
    - Hours, minutes, minute-of-day totals and durations are integers, [Z]:
      doubles hold them, their sums and their products exactly below 2^53.
    - Pixel positions and the pixel density are doubles, [PrimFloat.float],
      and the pixel arithmetic is the kernel's binary64 arithmetic, applied
      operation by operation as the source applies it. An integer enters
      it through [of_Z].
    - [Math.round] leaves the doubles again: its result is an integer.
    [NaN] and the infinities are not values of the integer part of the
    model; a function whose source would go on with them says so in its
    result.

    Effects.  The handlers change [this.CONFIG], [this.state],
    [this.dragState] and the stored snapshot; they are functions from the
    application record to the next one. Rendering, modals and alerts act on
    the DOM only and are left out.

    String model.  A JavaScript string is modelled by [string], one
    character per UTF-16 code unit below 256. *)

From Stdlib Require Import ZArith QArith Qround Lia Lqa Ascii String.
From Stdlib Require PrimFloat FloatOps Uint63.
From stdpp Require Import base option list strings sorting.
Import (notations) PrimFloat.

Local Open Scope string_scope.
Local Open Scope Z_scope.

(** ** Strings *)

Module JsString.

(** [s.split(sep)] for a one-character separator. The result is never
    empty: a string without separator yields itself, also when it is
    empty. *)
Fixpoint split_from (sep : ascii) (cur : string) (s : string) : list string :=
  match s with
  | EmptyString => [String.rev cur]
  | String c rest =>
      if Ascii.eqb c sep
      then String.rev cur :: split_from sep EmptyString rest
      else split_from sep (String c cur) rest
  end.

Definition split (sep : ascii) (s : string) : list string :=
  split_from sep EmptyString s.

(** White space of [String.prototype.trim] among the code units below
    256: TAB, LF, VT, FF, CR, SPACE and NO-BREAK SPACE. *)
Definition isWhiteSpace (c : ascii) : bool :=
  let n := nat_of_ascii c in
  ((9 <=? n) && (n <=? 13) || (n =? 32) || (n =? 160))%nat.

Fixpoint trimStart (s : string) : string :=
  match s with
  | EmptyString => EmptyString
  | String c rest => if isWhiteSpace c then trimStart rest else s
  end.

Definition trimEnd (s : string) : string :=
  String.rev (trimStart (String.rev s)).

Definition trim (s : string) : string := trimEnd (trimStart s).

(** [s.padStart(n, c)] for a one-character filler. *)
Definition padStart (n : nat) (c : ascii) (s : string) : string :=
  String.concat "" (replicate (n - String.length s) (String c "")) ++ s.

(** Truthiness of a string: only the empty string is falsy. *)
Definition truthy (s : string) : bool :=
  match s with EmptyString => false | _ => true end.

(** [arr.includes(x)] on an array of strings. *)
Definition includes (arr : list string) (x : string) : bool :=
  existsb (String.eqb x) arr.

End JsString.

(** ** Numbers and their decimal text *)

Module JsNumber.

Definition digit_char (d : Z) : ascii := ascii_of_nat (48 + Z.to_nat d).

Definition digit_value (c : ascii) : option Z :=
  let n := nat_of_ascii c in
  if ((48 <=? n) && (n <=? 57))%nat then Some (Z.of_nat n - 48) else None.

(** Decimal digits of a positive number, most significant first. [fuel]
    bounds the number of digits. *)
Fixpoint digits_of (fuel : nat) (n : Z) (acc : string) : string :=
  match fuel with
  | O => acc
  | S fuel' =>
      let acc' := String (digit_char (n mod 10)) acc in
      if n <? 10 then acc' else digits_of fuel' (n / 10) acc'
  end.

(** [String(n)] for an integer [n] (below 10^21 in size, where the source
    still writes plain decimal digits). *)
Definition toString (n : Z) : string :=
  if n <? 0
  then String "-" (digits_of (S (Z.to_nat (Z.log2 (- n)))) (- n) "")
  else digits_of (S (Z.to_nat (Z.log2 n))) n "".

Fixpoint digits_value (s : string) (acc : Z) : option Z :=
  match s with
  | EmptyString => Some acc
  | String c rest =>
      match digit_value c with
      | Some d => digits_value rest (10 * acc + d)
      | None => None
      end
  end.

(** [Number(s)] on the strings that, once trimmed, are empty (the number
    0) or a run of decimal digits with an optional sign. On every other
    string (a fraction, an exponent, a hexadecimal literal, "Infinity", or
    text that is no number) the source's [Number] gives a value that is not
    an integer of this model, or [NaN]; the model answers [None] there. *)
Definition Number (s : string) : option Z :=
  match JsString.trim s with
  | EmptyString => Some 0
  | String "-" rest =>
      if JsString.truthy rest then Z.opp <$> digits_value rest 0 else None
  | String "+" rest =>
      if JsString.truthy rest then digits_value rest 0 else None
  | t => digits_value t 0
  end.

(** The longest run of decimal digits at the head of [s], as a number;
    [None] when [s] does not start with a digit. *)
Fixpoint digits_prefix (s : string) (acc : option Z) : option Z :=
  match s with
  | EmptyString => acc
  | String c rest =>
      match digit_value c with
      | Some d => digits_prefix rest (Some (10 * default 0 acc + d))
      | None => acc
      end
  end.

(** [parseInt(s, 10)]: leading white space is skipped, a sign is read,
    then as many decimal digits as there are. Without a digit the source
    gives [NaN], the model [None]. The source's number is the double
    nearest to the value of the digits, which is that value below 2^53. *)
Definition parseInt (s : string) : option Z :=
  match JsString.trimStart s with
  | String "-" rest => Z.opp <$> digits_prefix rest None
  | String "+" rest => digits_prefix rest None
  | t => digits_prefix t None
  end.

(** The double that holds the integer [n] (exact below 2^53). *)
Definition of_Z (n : Z) : PrimFloat.float :=
  if n <? 0
  then PrimFloat.opp (PrimFloat.of_uint63 (Uint63.of_Z (- n)))
  else PrimFloat.of_uint63 (Uint63.of_Z n).

(** The number that a finite double stands for: its mantissa times a power
    of two, as a fraction in lowest terms. [None] for [NaN] and the
    infinities. *)
Definition value (x : PrimFloat.float) : option Q :=
  match FloatOps.Prim2SF x with
  | SpecFloat.S754_zero _ => Some 0%Q
  | SpecFloat.S754_finite s m e =>
      let n := if s then Z.neg m else Z.pos m in
      Some (if 0 <=? e then inject_Z (n * 2 ^ e)
            else Qred (Qmake n (Z.to_pos (2 ^ (- e)))))
  | _ => None
  end.

(** [Math.round(x)]: the integer nearest to the number that [x] stands for,
    a tie going to the larger one, which is [floor(x + 1/2)] computed
    without rounding. [None] for [NaN] and the infinities, which
    [Math.round] returns as they are. *)
Definition Math_round (x : PrimFloat.float) : option Z :=
  q ← value x; Some (Qfloor (q + (1 # 2))).

End JsNumber.

Import JsString JsNumber.

(** ** Data model *)

(** [this.CONFIG]. *)
Module Config.
Record t := mk {
  startHour : Z;
  endHour : Z;
  pixelsPerHour : PrimFloat.float;
  snapMinutes : Z;
  storageKey : string
}.
End Config.

(** [this.state.config], the persisted copy of the window. *)
Module StateConfig.
Record t := mk { startHour : Z; endHour : Z }.
End StateConfig.

Module Stage.
Record t := mk { id : string; name : string }.
End Stage.

(** An act. [category] is absent in some stored acts. *)
Module Act.
Record t := mk {
  id : string;
  stageId : string;
  name : string;
  startTime : string;
  endTime : string;
  color : string;
  category : option string
}.
End Act.

Module Member.
Record t := mk { id : string; name : string; teams : list string }.
End Member.

(** [this.state]. *)
Module State.
Record t := mk {
  config : StateConfig.t;
  stages : list Stage.t;
  acts : list Act.t;
  members : list Member.t
}.
End State.

(** [this.dragState]; [actId] is [null] when nothing is dragged. *)
Module DragState.
Record t := mk { actId : option string; offsetY : PrimFloat.float }.
End DragState.

(** The application object. [localStorage] is the snapshot kept under
    [CONFIG.storageKey]; the JSON text of a state is modelled by the state
    itself. The DOM is not part of the model. *)
Module App.
Record t := mk {
  CONFIG : Config.t;
  state : State.t;
  dragState : DragState.t;
  isReadOnly : bool;
  localStorage : option State.t
}.
End App.

(** What a drop event carries: the pointer's [clientY] and the top of the
    stage column's bounding rectangle. *)
Module DropEvent.
Record t := mk { clientY : PrimFloat.float; stageRectTop : PrimFloat.float }.
End DropEvent.

(** The placement part of an act's card. *)
Module Card.
Record t := mk {
  id : string;
  draggable : bool;
  backgroundColor : string;
  topPx : PrimFloat.float;
  heightPx : PrimFloat.float;
  categories : list string
}.
End Card.

(** The constructor's [CONFIG]. *)
Definition defaultCONFIG : Config.t :=
  Config.mk 9 22 300%float 5 "timetable_state".

(** ** Clock times *)

(** [const [h, m] = time.split(':').map(Number)]: the first two fields, as
    numbers. [None] when one of them is missing or outside [Number]'s
    modelled domain. *)
Definition parseTime (time : string) : option (Z * Z) :=
  match Number <$> split ":" time with
  | Some h :: Some m :: _ => Some (h, m)
  | _ => None
  end.

(** [formatTime(totalMin)]. [Math.floor(totalMin / 60)] is [Z.div] and
    JavaScript's [%] on integers is [Z.rem]. *)
Definition formatTime (totalMin : Z) : string :=
  let h := totalMin / 60 in
  let m := Z.rem totalMin 60 in
  let h := if 24 <=? h then Z.rem h 24 else h in
  (padStart 2 "0" (toString h) ++ ":" ++ padStart 2 "0" (toString m))%string.

(** ** Rendering an act *)

Section Rendering.
Variable CONFIG : Config.t.
Variable isReadOnly : bool.

(** [topPx] and [heightPx] of [createActCard]: the minute counts are
    integers, the division by 60 and the product with the density are
    operations on doubles. *)
Definition topPx (startTotalMin : Z) : PrimFloat.float :=
  let configStartMin := Config.startHour CONFIG * 60 in
  let offsetMin := startTotalMin - configStartMin in
  (of_Z offsetMin / 60 * Config.pixelsPerHour CONFIG)%float.

Definition heightPx (startTotalMin endTotalMin : Z) : PrimFloat.float :=
  let durationMin := endTotalMin - startTotalMin in
  (of_Z durationMin / 60 * Config.pixelsPerHour CONFIG)%float.

Definition createActCard (act : Act.t) : option Card.t :=
  '(startH, startM) ← parseTime (Act.startTime act);
  '(endH, endM) ← parseTime (Act.endTime act);
  let startTotalMin := startH * 60 + startM in
  let endTotalMin := endH * 60 + endM in
  let cats :=
    match Act.category act with
    | Some c =>
        if truthy c then List.filter truthy (trim <$> split "," c) else []
    | None => []
    end in
  Some (Card.mk (Act.id act) (negb isReadOnly) (Act.color act)
          (topPx startTotalMin) (heightPx startTotalMin endTotalMin) cats).
End Rendering.

(** ** Persistence *)

Definition saveState (app : App.t) : App.t :=
  if App.isReadOnly app then app
  else
    let st := App.state app in
    let st' :=
      State.mk
        (StateConfig.mk (Config.startHour (App.CONFIG app))
                        (Config.endHour (App.CONFIG app)))
        (State.stages st) (State.acts st) (State.members st) in
    App.mk (App.CONFIG app) st' (App.dragState app) (App.isReadOnly app)
           (Some st').

(** ** Drag and drop *)

Section Drop.
Variable CONFIG : Config.t.

(** [(relativeY / pixelsPerHour) * 60], on doubles. *)
Definition minutesFromStart (relativeY : PrimFloat.float) : PrimFloat.float :=
  (relativeY / Config.pixelsPerHour CONFIG * 60)%float.

(** [Math.round(minutesFromStart / snapMinutes) * snapMinutes]: the
    quotient is a double, the rounded value an integer. [None] when the
    quotient is [NaN] or infinite. *)
Definition snappedMinutes (relativeY : PrimFloat.float) : option Z :=
  k ← Math_round
        (minutesFromStart relativeY / of_Z (Config.snapMinutes CONFIG))%float;
  Some (k * Config.snapMinutes CONFIG).

(** The duration of an act as [handleDrop] and [createActCard] compute
    it: [(eH * 60 + eM) - (cH * 60 + cM)]. *)
Definition durationMin (startTime endTime : string) : option Z :=
  '(cH, cM) ← parseTime startTime;
  '(eH, eM) ← parseTime endTime;
  Some ((eH * 60 + eM) - (cH * 60 + cM)).

Definition newStartTotalMin (snapped : Z) : Z :=
  Config.startHour CONFIG * 60 + snapped.

(** [Math.max(globalStartMin, Math.min(newStartTotalMin, globalEndMin - durationMin))]. *)
Definition clampedStartMin (durationMin newStartTotalMin : Z) : Z :=
  let globalStartMin := Config.startHour CONFIG * 60 in
  let globalEndMin := Config.endHour CONFIG * 60 in
  Z.max globalStartMin (Z.min newStartTotalMin (globalEndMin - durationMin)).

(** The new [startTime] and [endTime] that a drop at [relativeY] writes
    into [act]. [None] when the snapped minutes or the act's times are not
    numbers of the model; the source then writes "NaN:NaN", or, for an
    infinite offset, a bound of the clamp. *)
Definition dropTimes (act : Act.t) (relativeY : PrimFloat.float)
  : option (string * string) :=
  snapped ← snappedMinutes relativeY;
  d ← durationMin (Act.startTime act) (Act.endTime act);
  let clampedStart := clampedStartMin d (newStartTotalMin snapped) in
  let clampedEnd := clampedStart + d in
  Some (formatTime clampedStart, formatTime clampedEnd).
End Drop.

(** [e.clientY - stageRect.top - this.dragState.offsetY], on doubles. *)
Definition relativeY (app : App.t) (e : DropEvent.t) : PrimFloat.float :=
  (DropEvent.clientY e - DropEvent.stageRectTop e
   - DragState.offsetY (App.dragState app))%float.

Definition with_acts (app : App.t) (acts : list Act.t) : App.t :=
  let st := App.state app in
  App.mk (App.CONFIG app)
         (State.mk (State.config st) (State.stages st) acts (State.members st))
         (App.dragState app) (App.isReadOnly app) (App.localStorage app).

Definition clear_drag (app : App.t) : App.t :=
  App.mk (App.CONFIG app) (App.state app)
         (DragState.mk None (DragState.offsetY (App.dragState app)))
         (App.isReadOnly app) (App.localStorage app).

(** [handleDrop(e, stageId)]. The act found by [find] is changed in place,
    so the array keeps it at its index. The result is [None] only when
    [dropTimes] has none. *)
Definition handleDrop (app : App.t) (e : DropEvent.t) (stageId : string)
  : option App.t :=
  match DragState.actId (App.dragState app) with
  | None => Some app
  | Some dragged =>
      if negb (truthy dragged) then Some app
      else
        match list_find (λ a, Act.id a = dragged) (State.acts (App.state app)) with
        | None => Some app
        | Some (i, act) =>
            '(newStart, newEnd) ← dropTimes (App.CONFIG app) act (relativeY app e);
            let act' :=
              Act.mk (Act.id act) stageId (Act.name act) newStart newEnd
                     (Act.color act) (Act.category act) in
            Some (clear_drag
                    (saveState
                       (with_acts app (<[i := act']> (State.acts (App.state app))))))
        end
  end.

(** ** Settings *)

Definition with_window (app : App.t) (start end_ : Z) : App.t :=
  let c := App.CONFIG app in
  App.mk (Config.mk start end_ (Config.pixelsPerHour c) (Config.snapMinutes c)
                    (Config.storageKey c))
         (App.state app) (App.dragState app) (App.isReadOnly app)
         (App.localStorage app).

(** What a call of [handleSettingsSubmit] did.
    - [Rejected]: [start >= end] held; the alert, and nothing is written.
    - [Saved app']: both hours are integers and [start >= end] did not
      hold; they are written to [CONFIG] and the state is saved.
    - [SavedNaN start end_]: a field holds no number, so that
      [start >= end] did not hold; the two values, [None] for [NaN], are
      written to [CONFIG] and the state is saved. [Config.t] cannot hold
      them. *)
Inductive SettingsResult :=
| Rejected
| Saved (app' : App.t)
| SavedNaN (start end_ : option Z).

(** [start >= end] on two values of [parseInt], [None] being [NaN]: a
    comparison with [NaN] is false. *)
Definition numberGe (a b : option Z) : bool :=
  match a, b with
  | Some x, Some y => x >=? y
  | _, _ => false
  end.

(** [handleSettingsSubmit(e)], given the text of the two hour fields. *)
Definition handleSettingsSubmit (app : App.t) (startField endField : string)
  : SettingsResult :=
  let start := parseInt startField in
  let end_ := parseInt endField in
  if numberGe start end_ then Rejected
  else
    match start, end_ with
    | Some start, Some end_ => Saved (saveState (with_window app start end_))
    | _, _ => SavedNaN start end_
    end.

(** The application after the call, where [App.t] can hold it. *)
Definition afterSettings (app : App.t) (r : SettingsResult) : option App.t :=
  match r with
  | Rejected => Some app
  | Saved app' => Some app'
  | SavedNaN _ _ => None
  end.

(** ** Export for one member *)

(** The filter of [handleIndividualExportSubmit]. *)
Definition actOfMember (member : Member.t) (a : Act.t) : bool :=
  match Act.category a with
  | None => false
  | Some c =>
      if negb (truthy c) then false
      else
        let cats := trim <$> split "," c in
        existsb (λ team, includes cats team) (Member.teams member)
  end.

(** [handleIndividualExportSubmit(e)], given the selected member id: the
    acts handed to [generateSpecializedExport], or [None] when no member
    has that id. *)
Definition handleIndividualExportSubmit (app : App.t) (memId : string)
  : option (list Act.t) :=
  '(_, member) ← list_find (λ m, Member.id m = memId) (State.members (App.state app));
  Some (List.filter (actOfMember member) (State.acts (App.state app))).

(** ** Vocabulary of the specification *)

(** The text "HH:MM" written out digit by digit. *)
Definition two_digits (d : Z) : string :=
  String (digit_char (d / 10)) (String (digit_char (d mod 10)) EmptyString).

Definition hhmm (h m : Z) : string :=
  (two_digits h ++ ":" ++ two_digits m)%string.

(** The minute of the day of a time string, [h * 60 + m]. *)
Definition minuteOfDay (time : string) : option Z :=
  '(h, m) ← parseTime time; Some (h * 60 + m).


(** Rounding to the nearest integer with a tie going away from zero, as the
    specification words it. *)
Definition round_half_away_from_zero (x : Q) : Z :=
  if Qle_bool 0 x then Qfloor (x + (1 # 2)) else Qceiling (x - (1 # 2)).

(** The invariant of the window: [startHour < endHour]. *)
Definition windowOrdered (CONFIG : Config.t) : Prop :=
  Config.startHour CONFIG < Config.endHour CONFIG.

(** [start < end] on two values of [parseInt], [None] being [NaN]. *)
Definition numberLt (a b : option Z) : bool :=
  match a, b with
  | Some x, Some y => x <? y
  | _, _ => false
  end.

(** A drop that gets past both early returns: an act is being dragged and
    [find] locates it at index [i]. *)
Definition dropFinds (app : App.t) (i : nat) (act : Act.t) : Prop :=
  ∃ dragged,
    DragState.actId (App.dragState app) = Some dragged
    ∧ dragged ≠ ""
    ∧ list_find (λ a, Act.id a = dragged) (State.acts (App.state app))
      = Some (i, act).

(** ** Sample data *)



(** The window 12 to 13 and the window 9 to 24, as the settings form
    accepts them. *)
Definition narrowCONFIG : Config.t :=
  Config.mk 12 13 300%float 5 "timetable_state".

Definition midnightCONFIG : Config.t :=
  Config.mk 9 24 300%float 5 "timetable_state".

(** "SBF Showcase" of the built-in schedule: 18:32 to 19:10, 38 minutes. *)
Definition showcase : Act.t :=
  Act.mk "act-1767265793673" "stage-1" "SBF Showcase" "18:32" "19:10"
         "#8b5cf6"
         (Some "Vocal Tompectrum, Exits, Orca Rhapsodia, Squash!, Ultra L, F.F.").

(** "Dream Quartet" of the built-in schedule: 12:00 to 13:30, 90 minutes. *)
Definition dreamQuartet : Act.t :=
  Act.mk "act-1767264350836" "stage-1" "Dream Quartet" "12:00" "13:30"
         "#ff0000" (Some "Dream Quartet").

(** Its second session in the built-in schedule, 13:30 to 15:00. *)
Definition dreamQuartetAgain : Act.t :=
  Act.mk "act-1767264392253" "stage-1" "Dream Quartet 2" "13:30" "15:00"
         "#ff0000" (Some "Dream Quartet").

(** A small schedule in the shape of the built-in one, with an act being
    dragged. *)
Definition sampleState : State.t :=
  State.mk
    (StateConfig.mk 9 22)
    [Stage.mk "stage-1" "Day1"; Stage.mk "stage-2" "Day2"]
    [Act.mk "act-1" "stage-1" "Pioniere rehearsal" "10:45" "11:30" "#3b82f6"
            (Some "Pioniere");
     dreamQuartet;
     showcase;
     Act.mk "act-1767266064720" "stage-1" "Chorus Stage" "20:55" "21:15"
            "#ec4899" (Some "Pioniere, Tokyo Vocal Express")]
    [Member.mk "mem-1768372678177" "Fumi" ["F.F."; "Pioniere"];
     Member.mk "mem-1768373837687" "Funaken" ["Harmonix Junction"; "Pioniere"]].

Definition sampleApp : App.t :=
  App.mk defaultCONFIG sampleState
         (DragState.mk (Some "act-1767264350836") 20%float) false None.

Definition sampleDrop : DropEvent.t := DropEvent.mk 1130%float 110%float.

(** * The other handlers *)

(** What the handlers below read from outside the application object is an
    argument: the text of a form field, the answer to [prompt] ([None] for
    Cancel) or to [confirm], and the clock value [Date.now()]. *)

Definition with_stages (app : App.t) (stages : list Stage.t) : App.t :=
  let st := App.state app in
  App.mk (App.CONFIG app)
         (State.mk (State.config st) stages (State.acts st) (State.members st))
         (App.dragState app) (App.isReadOnly app) (App.localStorage app).

Definition with_members (app : App.t) (members : list Member.t) : App.t :=
  let st := App.state app in
  App.mk (App.CONFIG app)
         (State.mk (State.config st) (State.stages st) (State.acts st) members)
         (App.dragState app) (App.isReadOnly app) (App.localStorage app).

Definition with_state (app : App.t) (st : State.t) : App.t :=
  App.mk (App.CONFIG app) st (App.dragState app) (App.isReadOnly app)
         (App.localStorage app).

(** [applyConfig()]: the window of [state.config] becomes the window of
    [CONFIG]. *)
Definition applyConfig (app : App.t) : App.t :=
  with_window app
    (StateConfig.startHour (State.config (App.state app)))
    (StateConfig.endHour (State.config (App.state app))).

(** ** The time axis and the stage columns *)

Module TimeMarker.
Record t := mk { top : PrimFloat.float; textContent : string }.
End TimeMarker.

Section Axis.
Variable CONFIG : Config.t.

(** [totalHeight] of [renderTimeLabels] and [renderStages]. *)
Definition totalHeight : PrimFloat.float :=
  (of_Z (Config.endHour CONFIG - Config.startHour CONFIG)
   * Config.pixelsPerHour CONFIG)%float.

(** The markers of [renderTimeLabels], one for [h = 0 .. totalHours]. *)
Definition renderTimeLabels : list TimeMarker.t :=
  let totalHours := Config.endHour CONFIG - Config.startHour CONFIG in
  (λ h : nat,
     let hour := Config.startHour CONFIG + Z.of_nat h in
     TimeMarker.mk (of_Z (Z.of_nat h) * Config.pixelsPerHour CONFIG)%float
                   (toString hour ++ ":00")%string)
  <$> seq 0 (Z.to_nat (totalHours + 1)).
End Axis.

(** ** Stages *)

(** [renameStage(stageId)], given the answer to the prompt. *)
Definition renameStage (app : App.t) (stageId : string) (answer : option string)
  : App.t :=
  match list_find (λ s, Stage.id s = stageId) (State.stages (App.state app)) with
  | None => app
  | Some (i, stage) =>
      match answer with
      | Some newName =>
          if truthy newName && truthy (trim newName)
          then saveState
                 (with_stages app
                    (<[i := Stage.mk (Stage.id stage) (trim newName)]>
                       (State.stages (App.state app))))
          else app
      | None => app
      end
  end.

(** [addStage()], given the answer to the prompt and [Date.now()]. *)
Definition addStage (app : App.t) (answer : option string) (now : Z) : App.t :=
  match answer with
  | Some name =>
      if truthy name
      then saveState
             (with_stages app
                (State.stages (App.state app)
                 ++ [Stage.mk ("stage-" ++ toString now)%string name]))
      else app
  | None => app
  end.

(** ** Acts *)

(** [handleDragStart(e, act)], given the pointer's [clientY] and the top of
    the card's bounding rectangle. *)
Definition handleDragStart (app : App.t) (act : Act.t)
    (clientY rectTop : PrimFloat.float) : App.t :=
  App.mk (App.CONFIG app) (App.state app)
         (DragState.mk (Some (Act.id act)) (clientY - rectTop)%float)
         (App.isReadOnly app) (App.localStorage app).

(** The fields of the act form, each with the text it holds. The page's
    markup is not part of the script: a field is taken to give back the
    text that was written to it. *)
Module ActForm.
Record t := mk {
  id : string;
  name : string;
  category : string;
  startTime : string;
  endTime : string;
  color : string
}.
End ActForm.

(** What [openEditModal(act)] writes into the act form. For a new act
    ([null]) the colour is the one that [getRandomColor()] picked. *)
Definition openEditModal (act : option Act.t) (randomColor : string)
  : ActForm.t :=
  match act with
  | Some act =>
      ActForm.mk (Act.id act) (Act.name act)
                 (match Act.category act with
                  | Some c => if truthy c then c else ""
                  | None => ""
                  end)
                 (Act.startTime act) (Act.endTime act) (Act.color act)
  | None => ActForm.mk "" "New Act" "" "12:00" "13:00" randomColor
  end.

(** [handleActSubmit(e)], given the form and [Date.now()]. The result is
    [None] when a new act is submitted while there is no stage: reading
    [this.state.stages[0].id] throws before anything is changed. *)
Definition handleActSubmit (app : App.t) (form : ActForm.t) (now : Z)
  : option App.t :=
  let acts := State.acts (App.state app) in
  if truthy (ActForm.id form) then
    match list_find (λ a, Act.id a = ActForm.id form) acts with
    | Some (i, act) =>
        Some (saveState
                (with_acts app
                   (<[i := Act.mk (Act.id act) (Act.stageId act)
                                  (ActForm.name form) (ActForm.startTime form)
                                  (ActForm.endTime form) (ActForm.color form)
                                  (Some (ActForm.category form))]> acts)))
    | None => Some (saveState app)
    end
  else
    match State.stages (App.state app) with
    | [] => None
    | first :: _ =>
        Some (saveState
                (with_acts app
                   (acts ++ [Act.mk ("act-" ++ toString now)%string
                                    (Stage.id first)
                                    (ActForm.name form) (ActForm.startTime form)
                                    (ActForm.endTime form) (ActForm.color form)
                                    (Some (ActForm.category form))])))
    end.

(** [handleActDelete()], given the form's act id and the answer to
    [confirm]. *)
Definition handleActDelete (app : App.t) (id : string) (confirmed : bool)
  : App.t :=
  if truthy id && confirmed
  then saveState
         (with_acts app
            (List.filter (λ a, negb (String.eqb (Act.id a) id))
               (State.acts (App.state app))))
  else app.

(** ** Members *)

(** [text.split(',').map(t => t.trim()).filter(Boolean)]. *)
Definition parseTeams (text : string) : list string :=
  List.filter truthy (trim <$> split "," text).

(** [handleMemberSubmit(e)], given the three fields and [Date.now()]. *)
Definition handleMemberSubmit (app : App.t) (id name teamsField : string)
    (now : Z) : App.t :=
  let members := State.members (App.state app) in
  let teams := parseTeams teamsField in
  if truthy id then
    match list_find (λ m, Member.id m = id) members with
    | Some (i, m) =>
        saveState (with_members app (<[i := Member.mk (Member.id m) name teams]> members))
    | None => saveState app
    end
  else
    saveState
      (with_members app
         (members ++ [Member.mk ("mem-" ++ toString now)%string name teams])).

(** [handleMemberDelete()], given the form's member id and the answer to
    [confirm]. *)
Definition handleMemberDelete (app : App.t) (id : string) (confirmed : bool)
  : App.t :=
  if truthy id && confirmed
  then saveState
         (with_members app
            (List.filter (λ m, negb (String.eqb (Member.id m) id))
               (State.members (App.state app))))
  else app.

(** What [editMember(id)] writes into the member form: id, name and the
    teams joined by [", "]. [None] when no member has that id. *)
Definition editMember (app : App.t) (id : string)
  : option (string * string * string) :=
  '(_, member) ← list_find (λ m, Member.id m = id) (State.members (App.state app));
  Some (Member.id member, Member.name member,
        String.concat ", " (Member.teams member)).

(** ** Export for one team *)

(** The filter of [handleTeamExportSubmit]. *)
Definition actOfTeam (team : string) (a : Act.t) : bool :=
  match Act.category a with
  | None => false
  | Some c =>
      if negb (truthy c) then false
      else includes (trim <$> split "," c) team
  end.

(** [handleTeamExportSubmit(e)], given the selected team: the acts handed
    to [generateSpecializedExport], or [None] when no team is selected. *)
Definition handleTeamExportSubmit (app : App.t) (team : string)
  : option (list Act.t) :=
  if negb (truthy team) then None
  else Some (List.filter (actOfTeam team) (State.acts (App.state app))).

(** [set.add(x)] on a [Set] kept in insertion order. *)
Definition setAdd (set : list string) (x : string) : list string :=
  if includes set x then set else set ++ [x].

(** The teams that [openTeamExport] collects from the categories. *)
Definition collectTeams (acts : list Act.t) : list string :=
  foldl (λ set act,
           match Act.category act with
           | Some c =>
               if truthy c then foldl setAdd set (trim <$> split "," c)
               else set
           | None => set
           end) [] acts.

(** The options of [openTeamExport]: the collected teams without the empty
    one, sorted. [sort()] without comparator orders strings by code units,
    which is [String.le]; that order is total and antisymmetric and leaves
    one sorted arrangement, so the sorting algorithm does not matter. *)
Definition openTeamExport (app : App.t) : list string :=
  merge_sort String.le
    (List.filter truthy (collectTeams (State.acts (App.state app)))).

(** ** Order of an export *)

Section ExportOrder.
Variable stages : list Stage.t.

(** [stages.findIndex(s => s.id === stageId)]. *)
Definition findIndex (stageId : string) : Z :=
  match list_find (λ s, Stage.id s = stageId) stages with
  | Some (i, _) => Z.of_nat i
  | None => -1
  end.

(** The comparator of [generateSpecializedExport]. [None] when the stages
    are the same and a start time is outside the modelled numbers. *)
Definition exportCompare (a b : Act.t) : option Z :=
  let stageIndexA := findIndex (Act.stageId a) in
  let stageIndexB := findIndex (Act.stageId b) in
  if negb (stageIndexA =? stageIndexB) then Some (stageIndexA - stageIndexB)
  else
    '(aH, aM) ← parseTime (Act.startTime a);
    '(bH, bM) ← parseTime (Act.startTime b);
    Some ((aH * 60 + aM) - (bH * 60 + bM)).

(** Insertion of [x], which stood before the elements of the sorted [l]:
    it goes before the first element that it does not come after. *)
Fixpoint exportInsert (x : Act.t) (l : list Act.t) : option (list Act.t) :=
  match l with
  | [] => Some [x]
  | y :: l' =>
      c ← exportCompare x y;
      if c <=? 0 then Some (x :: l)
      else cons y <$> exportInsert x l'
  end.

(** [acts.sort(comparator)]. The source's sort is stable and the comparator
    is an order on (stage index, start minute), which leaves one result;
    the model reaches it by insertion. [None] when a comparison made on the
    way meets a start time outside the modelled numbers. *)
Fixpoint exportSort (acts : list Act.t) : option (list Act.t) :=
  match acts with
  | [] => Some []
  | x :: rest => sorted ← exportSort rest; exportInsert x sorted
  end.

(** The stage name shown for an act: [find(...)?.name || 'Unknown']. *)
Definition exportStageName (act : Act.t) : string :=
  match list_find (λ s, Stage.id s = Act.stageId act) stages with
  | Some (_, s) => if truthy (Stage.name s) then Stage.name s else "Unknown"
  | None => "Unknown"
  end.
End ExportOrder.

(** ** File name of an image *)

Definition isAlnum (c : ascii) : bool :=
  let n := nat_of_ascii c in
  ((48 <=? n) && (n <=? 57) || (65 <=? n) && (n <=? 90)
   || (97 <=? n) && (n <=? 122))%nat.

(** [filename.replace(/[^a-z0-9]/gi, '_')]. *)
Fixpoint replaceNonAlnum (s : string) : string :=
  match s with
  | EmptyString => EmptyString
  | String c rest =>
      String (if isAlnum c then c else "_"%char) (replaceNonAlnum rest)
  end.

(** The [download] name that [downloadImage] gives the link. *)
Definition downloadImage (filename : string) : string :=
  (replaceNonAlnum filename ++ ".png")%string.

(** ** Opening the settings *)

(** What [openSettings()] writes into the two hour fields. *)
Definition openSettings (app : App.t) : string * string :=
  (toString (Config.startHour (App.CONFIG app)),
   toString (Config.endHour (App.CONFIG app))).

(** ** Starting up *)

(** A value read from JSON: the key is missing, holds [null], or holds a
    value. *)
Inductive Field (A : Type) :=
| Absent
| Null
| Present (a : A).
Arguments Absent {A}.
Arguments Null {A}.
Arguments Present {A} a.

(** A parsed snapshot: an object whose keys, where they are present, hold
    values of the right kind (or [null], for the three arrays and for
    [config]). *)
Module Stored.
Record window := mkWindow { startHour : option Z; endHour : option Z }.
Record t := mk {
  config : Field window;
  stages : Field (list Stage.t);
  acts : Field (list Act.t);
  members : Field (list Member.t)
}.

(** The snapshot that [JSON.stringify(state)] writes and [JSON.parse]
    reads back. *)
Definition of_state (st : State.t) : t :=
  mk (Present (mkWindow (Some (StateConfig.startHour (State.config st)))
                        (Some (StateConfig.endHour (State.config st)))))
     (Present (State.stages st)) (Present (State.acts st))
     (Present (State.members st)).

(** The state that a parsed object is when it is complete: the four keys
    hold values and both hours are numbers. *)
Definition to_state (parsed : t) : option State.t :=
  match config parsed, stages parsed, acts parsed, members parsed with
  | Present w, Present sts, Present as_, Present ms =>
      s ← startHour w; e ← endHour w;
      Some (State.mk (StateConfig.mk s e) sts as_ ms)
  | _, _, _, _ => None
  end.
End Stored.

(** [{ ...this.state.config, ...parsed.config }]. *)
Definition mergeConfig (old : StateConfig.t) (parsed : Field Stored.window)
  : StateConfig.t :=
  match parsed with
  | Present w =>
      StateConfig.mk (default (StateConfig.startHour old) (Stored.startHour w))
                     (default (StateConfig.endHour old) (Stored.endHour w))
  | _ => old
  end.

(** A key of [{ ...this.state, ...parsed }] followed by
    [if (!this.state.key) this.state.key = []]. *)
Definition mergeArray {A} (old : list A) (parsed : Field (list A)) : list A :=
  match parsed with
  | Absent => old
  | Null => []
  | Present l => l
  end.

(** [loadState()] without [?view=public], given the parsed text under the
    storage key ([None] when there is none or it does not parse). *)
Definition loadState (app : App.t) (saved : option Stored.t) : App.t :=
  let app := App.mk (App.CONFIG app) (App.state app) (App.dragState app)
                    false (App.localStorage app) in
  match saved with
  | None => app
  | Some parsed =>
      let st := App.state app in
      with_state app
        (State.mk (mergeConfig (State.config st) (Stored.config parsed))
                  (mergeArray (State.stages st) (Stored.stages parsed))
                  (mergeArray (State.acts st) (Stored.acts parsed))
                  (mergeArray (State.members st) (Stored.members parsed)))
  end.

(** The state part of [init()]: [loadState()] then [applyConfig()]. *)
Definition init (app : App.t) (saved : option Stored.t) : App.t :=
  applyConfig (loadState app saved).

(** ** Loading a project file *)

(** [handleLoadProjectFile], from the confirmed choice of a file whose text
    parses. For a file that holds a complete state the state is replaced,
    saved, and the window applied. For any other file the source still
    replaces [this.state], by an object that [State.t] cannot hold; without
    a [config] key [saveState] then throws, so that nothing is stored, and
    the alert reads 'Invalid File'. The model has no result there. *)
Definition handleLoadProjectFile (app : App.t) (parsed : Stored.t)
  : option App.t :=
  st ← Stored.to_state parsed;
  Some (applyConfig (saveState (with_state app st))).

(** ** The list of members for an export *)

Section Collation.
(** [a.localeCompare(b)] of the host: negative, zero or positive. *)
Variable localeCompare : string → string → Z.

(** Insertion of [m], which stood before the members of the sorted [l]. *)
Fixpoint insertMember (m : Member.t) (l : list Member.t) : list Member.t :=
  match l with
  | [] => [m]
  | y :: l' =>
      if localeCompare (Member.name m) (Member.name y) <=? 0 then m :: l
      else y :: insertMember m l'
  end.

(** [members.sort((a, b) => a.name.localeCompare(b.name))]: the source's
    sort is stable and a collation is a consistent order, which leaves one
    result; the model reaches it by insertion. *)
Definition sortMembers (members : list Member.t) : list Member.t :=
  foldr insertMember [] members.

(** [openIndividualExport()]: the members are sorted in place, in
    [this.state], and the state is not saved. *)
Definition openIndividualExport (app : App.t) : App.t :=
  with_members app (sortMembers (State.members (App.state app))).
End Collation.

(** ** Reset *)

(** [handleReset()], given the answer to [confirm]:
    [localStorage.removeItem], whatever [isReadOnly] is. [location.reload()]
    then ends this application object; the page starts again with [init]
    and no snapshot. *)
Definition handleReset (app : App.t) (confirmed : bool) : App.t :=
  if confirmed
  then App.mk (App.CONFIG app) (App.state app) (App.dragState app)
              (App.isReadOnly app) None
  else app.

(** ** The handlers as steps *)

(** A call, once the page has started, of one of the methods that write to
    the application object or to the storage, with what it reads from
    outside. The other methods bound in [bindEvents] and in the render
    functions only read them. *)
Inductive Action :=
| DragStart (act : Act.t) (clientY rectTop : PrimFloat.float)
| Drop (e : DropEvent.t) (stageId : string)
| SettingsSubmit (startField endField : string)
| ActSubmit (form : ActForm.t) (now : Z)
| ActDelete (id : string) (confirmed : bool)
| MemberSubmit (id name teamsField : string) (now : Z)
| MemberDelete (id : string) (confirmed : bool)
| RenameStage (stageId : string) (answer : option string)
| AddStage (answer : option string) (now : Z)
| LoadProject (parsed : Stored.t)
| OpenIndividualExport (localeCompare : string → string → Z)
| Reset (confirmed : bool).

(** The application after the call; [None] where the handler's model has
    no result: a drop whose times are not numbers, a settings form with a
    field that holds no number, a new act when there is no stage, a project
    file that is not a complete state. *)
Definition run (action : Action) (app : App.t) : option App.t :=
  match action with
  | DragStart act clientY rectTop => Some (handleDragStart app act clientY rectTop)
  | Drop e stageId => handleDrop app e stageId
  | SettingsSubmit startField endField =>
      afterSettings app (handleSettingsSubmit app startField endField)
  | ActSubmit form now => handleActSubmit app form now
  | ActDelete id confirmed => Some (handleActDelete app id confirmed)
  | MemberSubmit id name teamsField now =>
      Some (handleMemberSubmit app id name teamsField now)
  | MemberDelete id confirmed => Some (handleMemberDelete app id confirmed)
  | RenameStage stageId answer => Some (renameStage app stageId answer)
  | AddStage answer now => Some (addStage app answer now)
  | LoadProject parsed => handleLoadProjectFile app parsed
  | OpenIndividualExport localeCompare =>
      Some (openIndividualExport localeCompare app)
  | Reset confirmed => Some (handleReset app confirmed)
  end.

(** Every act sits on a stage of the schedule. *)
Definition stagesKnown (app : App.t) : Prop :=
  ∀ a, a ∈ State.acts (App.state app) →
       ∃ s, s ∈ State.stages (App.state app) ∧ Stage.id s = Act.stageId a.

(** A drop lands on a stage column, which [renderStages] makes for the
    stages of the schedule only; a loaded file can hold anything. *)
Definition onKnownStage (app : App.t) (action : Action) : Prop :=
  match action with
  | Drop _ stageId =>
      ∃ s, s ∈ State.stages (App.state app) ∧ Stage.id s = stageId
  | LoadProject _ => False
  | _ => True
  end.

(** The stored snapshot is the state in memory, and [state.config] is the
    window of [CONFIG]. *)
Definition stored (app : App.t) : Prop :=
  App.localStorage app = Some (App.state app)
  ∧ State.config (App.state app)
    = StateConfig.mk (Config.startHour (App.CONFIG app))
                     (Config.endHour (App.CONFIG app)).

(** The same, but for the order of the members in the snapshot. *)
Definition storedUpToMemberOrder (app : App.t) : Prop :=
  (∃ snapshot,
     App.localStorage app = Some snapshot
     ∧ State.config snapshot = State.config (App.state app)
     ∧ State.stages snapshot = State.stages (App.state app)
     ∧ State.acts snapshot = State.acts (App.state app)
     ∧ State.members snapshot ≡ₚ State.members (App.state app))
  ∧ State.config (App.state app)
    = StateConfig.mk (Config.startHour (App.CONFIG app))
                     (Config.endHour (App.CONFIG app)).

(** A team name as [handleMemberSubmit] stores it: not empty, without
    white space at either end, without comma. *)
Definition teamName (t : string) : Prop :=
  t ≠ "" ∧ trim t = t ∧ split "," t = [t].

(** Every member's teams are team names. *)
Definition teamsClean (app : App.t) : Prop :=
  ∀ m, m ∈ State.members (App.state app) → Forall teamName (Member.teams m).

(** The category entries that an act contributes to the teams. *)
Definition entriesOf (a : Act.t) : list string :=
  match Act.category a with
  | Some c => if truthy c then trim <$> split "," c else []
  | None => []
  end.

(** The order of an export: by stage index, then by start minute. *)
Definition exportLe (stages : list Stage.t) (a b : Act.t) : Prop :=
  findIndex stages (Act.stageId a) < findIndex stages (Act.stageId b)
  ∨ (findIndex stages (Act.stageId a) = findIndex stages (Act.stageId b)
     ∧ ∃ ma mb, minuteOfDay (Act.startTime a) = Some ma
                ∧ minuteOfDay (Act.startTime b) = Some mb
                ∧ ma <= mb).

(** [b] ties with [a]: the comparator gives 0. *)
Definition exportTie (stages : list Stage.t) (a b : Act.t) : bool :=
  match exportCompare stages a b with
  | Some 0 => true
  | _ => false
  end.



(** ** Shapes of strings *)

(** [c] does not occur in [s]. *)
Fixpoint hasNo (c : ascii) (s : string) : Prop :=
  match s with
  | EmptyString => True
  | String a rest => a ≠ c ∧ hasNo c rest
  end.

(** [s] does not start with white space. *)
Definition noLeadWs (s : string) : Prop :=
  match s with
  | EmptyString => True
  | String a _ => isWhiteSpace a = false
  end.

(** [s] is white space only. *)
Fixpoint allWs (s : string) : Prop :=
  match s with
  | EmptyString => True
  | String a rest => isWhiteSpace a = true ∧ allWs rest
  end.

(** * Properties *)

(** ** Two-digit fields *)

(** A boolean test that holds on the first [n] naturals holds on every
    integer of [0, n). *)
Lemma below_forallb (P : Z → bool) (n : nat) :
  forallb (λ k, P (Z.of_nat k)) (seq 0 n) = true →
  ∀ d, 0 <= d < Z.of_nat n → P d = true.
Proof.
  intros Hall d Hd.
  rewrite forallb_forall in Hall.
  specialize (Hall (Z.to_nat d)).
  rewrite Z2Nat.id in Hall by lia.
  apply Hall, in_seq. lia.
Qed.


Lemma pad_two_digits d :
  0 <= d < 100 → padStart 2 "0" (toString d) = two_digits d.
Proof.
  intros Hd.
  apply String.eqb_eq.
  revert d Hd.
  apply (below_forallb
           (λ d, String.eqb (padStart 2 "0" (toString d)) (two_digits d)) 100).
  vm_compute. reflexivity.
Qed.

Lemma parseTime_hhmm h m :
  0 <= h < 24 → 0 <= m < 60 → parseTime (hhmm h m) = Some (h, m).
Proof.
  intros Hh Hm.
  pose (ok := λ h m : Z,
          match parseTime (hhmm h m) with
          | Some (h', m') => (h' =? h) && (m' =? m)
          | None => false
          end).
  assert (Hok : ok h m = true).
  { revert m Hm.
    apply (below_forallb (ok h) 60).
    revert h Hh.
    apply (below_forallb
             (λ h, forallb (λ k, ok h (Z.of_nat k)) (seq 0 60)) 24).
    vm_compute. reflexivity. }
  unfold ok in Hok.
  destruct (parseTime (hhmm h m)) as [[h' m']|]; [|discriminate].
  apply andb_prop in Hok as [Hh' Hm'].
  apply Z.eqb_eq in Hh', Hm'. congruence.
Qed.

Lemma formatTime_nonneg n :
  0 <= n → formatTime n = hhmm ((n / 60) mod 24) (n mod 60).
Proof.
  intros Hn. unfold formatTime, hhmm.
  assert (Hh : 0 <= n / 60) by (apply Z.div_pos; lia).
  rewrite (Z.rem_mod_nonneg n 60) by lia.
  assert (Hhour : (if 24 <=? n / 60 then Z.rem (n / 60) 24 else n / 60)
                  = (n / 60) mod 24).
  { destruct (Z.leb_spec 24 (n / 60)).
    - apply Z.rem_mod_nonneg; lia.
    - symmetry. apply Z.mod_small. lia. }
  rewrite Hhour.
  rewrite !pad_two_digits; [reflexivity | |].
  - pose proof (Z.mod_pos_bound n 60). lia.
  - pose proof (Z.mod_pos_bound (n / 60) 24). lia.
Qed.


Lemma formatTime_text_and_back n :
  0 <= n →
  formatTime n = hhmm ((n / 60) mod 24) (n mod 60)
  ∧ parseTime (formatTime n) = Some ((n / 60) mod 24, n mod 60).
Proof.
  intros Hn. rewrite formatTime_nonneg by assumption.
  split; [reflexivity|].
  apply parseTime_hhmm; apply Z.mod_pos_bound; lia.
Qed.

(** C6. For every non-negative minute count, [formatTime] writes the hour
    [floor(totalMin / 60) mod 24] and the minute [totalMin mod 60], each as
    two digits, around a colon; reading the text back gives these two
    numbers. *)
Theorem formatTime_wraps_hour_mod_24 (totalMin : Z) :
  0 <= totalMin →
  formatTime totalMin = hhmm ((totalMin / 60) mod 24) (totalMin mod 60)
  ∧ String.length (formatTime totalMin) = 5%nat
  ∧ parseTime (formatTime totalMin)
    = Some ((totalMin / 60) mod 24, totalMin mod 60).
Proof.
  intros Hn.
  rewrite formatTime_nonneg by assumption.
  split; [reflexivity|]. split; [reflexivity|].
  apply parseTime_hhmm.
  - apply Z.mod_pos_bound. lia.
  - apply Z.mod_pos_bound. lia.
Qed.

Lemma formatTime_wraps_hour_mod_24_witness :
  0 <= 1510
  ∧ formatTime 1510 = "01:10"
  ∧ String.length (formatTime 1510) = 5%nat
  ∧ parseTime (formatTime 1510) = Some (1, 10).
Proof.
  split; [lia|]. exact (formatTime_wraps_hour_mod_24 1510 ltac:(lia)).
Defined.

(** ** Rounding *)

(** [Math.round x] is the one integer [n] with [n - 1/2 <= x < n + 1/2],
    where [x] is taken as the number that the double stands for. *)
Lemma Math_round_spec (x : PrimFloat.float) (n : Z) :
  Math_round x = Some n →
  ∃ q, value x = Some q
       ∧ (inject_Z n - (1 # 2) <= q)%Q ∧ (q < inject_Z n + (1 # 2))%Q.
Proof.
  unfold Math_round. destruct (value x) as [q|]; [|discriminate].
  intros H. change (Some (Qfloor (q + (1 # 2))) = Some n) in H.
  assert (Hn : n = Qfloor (q + (1 # 2))) by congruence. subst n. clear H.
  exists q. split; [reflexivity|].
  pose proof (Qfloor_le (q + (1 # 2))) as Hle.
  pose proof (Qlt_floor (q + (1 # 2))) as Hlt.
  rewrite inject_Z_plus in Hlt.
  change (inject_Z 1) with 1%Q in Hlt.
  split; lra.
Qed.

(** ** Anchors of the time axis *)

Lemma createActCard_topPx CONFIG ro act card :
  createActCard CONFIG ro act = Some card →
  ∃ h m, parseTime (Act.startTime act) = Some (h, m)
         ∧ Card.topPx card = topPx CONFIG (h * 60 + m).
Proof.
  unfold createActCard. intros H.
  destruct (parseTime (Act.startTime act)) as [[h m]|]; [|discriminate].
  destruct (parseTime (Act.endTime act)) as [[eh em]|]; [|discriminate].
  simpl in H. injection H as <-. exists h, m. split; reflexivity.
Qed.

(** C7. In the window 9 to 22 at 300 pixels per hour, the card of an act
    that starts at "09:00" is placed at offset 0 and the card of an act
    that starts at "10:00" at offset 300: the doubles that the source
    computes are these two numbers. *)
Theorem createActCard_anchor_offsets snap key ro act card :
  createActCard (Config.mk 9 22 300%float snap key) ro act = Some card →
  (Act.startTime act = "09:00" → Card.topPx card = 0%float)
  ∧ (Act.startTime act = "10:00" → Card.topPx card = 300%float).
Proof.
  intros Hcard.
  destruct (createActCard_topPx _ _ _ _ Hcard) as (h & m & Hparse & ->).
  split; intros Hstart; rewrite Hstart in Hparse;
    vm_compute in Hparse; injection Hparse as <- <-; reflexivity.
Qed.

Lemma createActCard_anchor_offsets_witness :
  let nine := Act.mk "act-9" "stage-1" "Nine" "09:00" "10:00" "#3b82f6" (Some "") in
  let ten := Act.mk "act-10" "stage-1" "Ten" "10:00" "11:00" "#3b82f6" (Some "") in
  (∃ card, createActCard defaultCONFIG false nine = Some card
           ∧ Card.topPx card = 0%float)
  ∧ (∃ card, createActCard defaultCONFIG false ten = Some card
             ∧ Card.topPx card = 300%float).
Proof.
  intros nine ten. split.
  - eexists. split; [reflexivity|].
    apply (createActCard_anchor_offsets 5 "timetable_state" false nine);
      reflexivity.
  - eexists. split; [reflexivity|].
    apply (createActCard_anchor_offsets 5 "timetable_state" false ten);
      reflexivity.
Defined.

(** ** Round trip through the pixel scale *)







(** ** Snapping to the five-minute grid *)

(** C2, as stated, fails: with the built-in window and snap of 5, the
    38-minute act dropped 3750 pixels down (the 21:30 line) is clamped to
    [22*60 - 38] and starts at 21:22. *)
Lemma drop_clamped_to_end_leaves_grid :
  Config.snapMinutes defaultCONFIG = 5
  ∧ dropTimes defaultCONFIG showcase 3750%float = Some ("21:22", "22:00")
  ∧ parseTime "21:22" = Some (21, 22)
  ∧ 22 mod 5 ≠ 0.
Proof. repeat split. discriminate. Qed.

Lemma snappedMinutes_multiple CONFIG y k :
  snappedMinutes CONFIG y = Some k → (Config.snapMinutes CONFIG | k).
Proof.
  unfold snappedMinutes. destruct (Math_round _) as [n|]; [|discriminate].
  simpl. intros [= <-]. apply Z.divide_factor_r.
Qed.

Lemma clampedStartMin_cases CONFIG d s :
  let c := clampedStartMin CONFIG d s in
  Config.startHour CONFIG * 60 <= c
  ∧ (c = Config.startHour CONFIG * 60
     ∨ c = s ∧ s <= Config.endHour CONFIG * 60 - d
     ∨ c = Config.endHour CONFIG * 60 - d ∧ Config.endHour CONFIG * 60 - d < s).
Proof. unfold clampedStartMin. cbv zeta. lia. Qed.

Lemma hour_on_grid h : (5 | h * 60).
Proof. apply Z.divide_mul_r. exists 12. reflexivity. Qed.

Lemma minute_on_grid c : (5 | c) → (c mod 60) mod 5 = 0.
Proof.
  intros Hc. apply Z.mod_divide; [lia|].
  rewrite Z.mod_eq by lia.
  apply Z.divide_sub_r; [assumption|].
  rewrite Z.mul_comm. apply hour_on_grid.
Qed.

(** C2, amended. With a snap of 5 and a window that starts at hour 0 or
    later, the start time written by a drop has a minute divisible by 5
    whenever the act's duration is a multiple of 5 or the snapped start is
    not above [endHour*60 - duration]. The snapped minutes are taken to be
    a number: [NaN] and an infinite offset are outside the model. *)
Theorem drop_start_minute_on_grid CONFIG act y d snapped :
  Config.snapMinutes CONFIG = 5 →
  snappedMinutes CONFIG y = Some snapped →
  0 <= Config.startHour CONFIG →
  durationMin (Act.startTime act) (Act.endTime act) = Some d →
  (5 | d)
  ∨ newStartTotalMin CONFIG snapped <= Config.endHour CONFIG * 60 - d →
  ∃ h m newEnd,
    dropTimes CONFIG act y = Some (hhmm h m, newEnd)
    ∧ 0 <= h < 24 ∧ 0 <= m < 60 ∧ m mod 5 = 0.
Proof.
  intros Hs Hsnap H0 Hd Hgrid.
  unfold dropTimes. rewrite Hsnap. simpl. rewrite Hd. simpl.
  set (s := newStartTotalMin CONFIG snapped) in *.
  assert (Hsdiv : (5 | s)).
  { subst s. unfold newStartTotalMin.
    apply Z.divide_add_r; [apply hour_on_grid|].
    rewrite <- Hs. eapply snappedMinutes_multiple, Hsnap. }
  destruct (clampedStartMin_cases CONFIG d s) as [Hlo Hcases].
  set (c := clampedStartMin CONFIG d s) in *.
  assert (Hc : (5 | c)).
  { destruct Hcases as [-> | [[-> _] | [-> Hgt]]].
    - apply hour_on_grid.
    - assumption.
    - destruct Hgrid as [Hdd | Hle]; [|lia].
      apply Z.divide_sub_r; [apply hour_on_grid | assumption]. }
  exists ((c / 60) mod 24), (c mod 60). eexists.
  rewrite formatTime_nonneg by lia.
  split; [reflexivity|].
  split; [apply Z.mod_pos_bound; lia|].
  split; [apply Z.mod_pos_bound; lia|].
  apply minute_on_grid, Hc.
Qed.

Lemma drop_start_minute_on_grid_witness :
  ∃ h m newEnd,
    dropTimes defaultCONFIG showcase 3000%float = Some (hhmm h m, newEnd)
    ∧ 0 <= h < 24 ∧ 0 <= m < 60 ∧ m mod 5 = 0.
Proof.
  apply (drop_start_minute_on_grid defaultCONFIG showcase 3000%float 38 600).
  - reflexivity.
  - reflexivity.
  - simpl. lia.
  - reflexivity.
  - right. vm_compute. discriminate.
Defined.

(** ** Clamping into the window *)

(** C3, as stated, fails: in the window 12 to 13 the 90-minute act 12:00
    to 13:30 dropped on the 13:00 line has a snapped start of 780, above
    [13*60 - 90 = 690], and yet is placed at 720, the window start. *)
Lemma clamp_of_oversized_act_is_window_start :
  durationMin (Act.startTime dreamQuartet) (Act.endTime dreamQuartet) = Some 90
  ∧ dropTimes narrowCONFIG dreamQuartet 300%float = Some ("12:00", "13:30")
  ∧ snappedMinutes narrowCONFIG 300%float = Some 60
  ∧ newStartTotalMin narrowCONFIG 60 = 780
  ∧ Config.endHour narrowCONFIG * 60 - 90 < 780
  ∧ clampedStartMin narrowCONFIG 90 780 = 720
  ∧ 720 ≠ Config.endHour narrowCONFIG * 60 - 90.
Proof. repeat split. discriminate. Qed.

(** C3, amended. A snapped start below [startHour*60] resolves to
    [startHour*60]. A snapped start above [endHour*60 - duration] resolves
    to [endHour*60 - duration] when the act fits in the window, that is when
    [startHour*60 <= endHour*60 - duration]; when the act is longer than
    the window the result is [startHour*60]. *)
Theorem clampedStartMin_bounds CONFIG d s :
  let globalStartMin := Config.startHour CONFIG * 60 in
  let globalEndMin := Config.endHour CONFIG * 60 in
  (s < globalStartMin → clampedStartMin CONFIG d s = globalStartMin)
  ∧ (globalEndMin - d < s → globalStartMin <= globalEndMin - d →
     clampedStartMin CONFIG d s = globalEndMin - d)
  ∧ (globalEndMin - d < globalStartMin →
     clampedStartMin CONFIG d s = globalStartMin).
Proof.
  intros globalStartMin globalEndMin. subst globalStartMin globalEndMin.
  unfold clampedStartMin. cbv zeta. lia.
Qed.

Lemma clampedStartMin_bounds_witness :
  clampedStartMin defaultCONFIG 60 500 = 540
  ∧ clampedStartMin defaultCONFIG 60 1300 = 1260
  ∧ clampedStartMin narrowCONFIG 90 780 = 720.
Proof.
  split; [|split].
  - apply (proj1 (clampedStartMin_bounds defaultCONFIG 60 500)).
    simpl. lia.
  - apply (proj1 (proj2 (clampedStartMin_bounds defaultCONFIG 60 1300)));
      simpl; lia.
  - apply (proj2 (proj2 (clampedStartMin_bounds narrowCONFIG 90 780))).
    simpl. lia.
Defined.

(** ** Rounding mode of the snap *)

(** C5, as stated, fails, in both directions. 37.5 pixels above the column
    top the quotient is -1.5 snaps of 5, exactly halfway: the source picks
    -5, the multiple nearer to zero, where rounding away from zero picks
    -10. And 612.5 pixels down, where the scaled minutes are 122.5, that is
    24.5 snaps when computed without rounding, the doubles of the source
    give a quotient just below 24.5, and the source picks 120, again the
    multiple nearer to zero, where rounding away from zero picks 125. *)
Lemma snap_of_negative_half_goes_up :
  value (minutesFromStart defaultCONFIG (-37.5) / of_Z 5)%float
  = Some (-3 # 2)%Q
  ∧ snappedMinutes defaultCONFIG (-37.5)%float = Some (-5)
  ∧ round_half_away_from_zero (-3 # 2) * 5 = -10
  ∧ value 612.5%float = Some (1225 # 2)%Q
  ∧ ((1225 # 2) / 300 * 60 / 5 == 49 # 2)%Q
  ∧ snappedMinutes defaultCONFIG 612.5%float = Some 120
  ∧ round_half_away_from_zero (49 # 2) * 5 = 125.
Proof. repeat split; vm_compute; reflexivity. Qed.

(** C5, amended. The snapped minute count is [n * snapMinutes], where [n]
    is [Math.round] of the quotient that the source computes in doubles,
    [(relativeY / pixelsPerHour * 60) / snapMinutes]: the integer nearest
    to that double, a tie going to the larger one,
    [n - 1/2 <= quotient < n + 1/2]. For a quotient that is not negative
    this is rounding half away from zero. The quotient is a double and can
    lie just below a tie of the exact ratio, as it does 612.5 pixels down
    the built-in column. *)
Theorem snappedMinutes_rounds_half_up CONFIG y snapped :
  snappedMinutes CONFIG y = Some snapped →
  let snap := Config.snapMinutes CONFIG in
  ∃ quotient n,
    value (minutesFromStart CONFIG y / of_Z snap)%float = Some quotient
    ∧ snapped = n * snap
    ∧ (inject_Z n - (1 # 2) <= quotient)%Q
    ∧ (quotient < inject_Z n + (1 # 2))%Q
    ∧ ((0 <= quotient)%Q → n = round_half_away_from_zero quotient).
Proof.
  intros Hsnap snap. unfold snappedMinutes in Hsnap. fold snap in Hsnap.
  destruct (Math_round (minutesFromStart CONFIG y / of_Z snap)%float)
    as [n|] eqn:Hround; [|discriminate].
  simpl in Hsnap. injection Hsnap as <-.
  destruct (Math_round_spec _ _ Hround) as (quotient & Hq & Hlo & Hhi).
  exists quotient, n. split; [exact Hq|]. split; [reflexivity|].
  split; [exact Hlo|]. split; [exact Hhi|].
  intros H0. unfold round_half_away_from_zero.
  apply Qle_bool_iff in H0. rewrite H0.
  unfold Math_round in Hround. rewrite Hq in Hround.
  change (Some (Qfloor (quotient + (1 # 2))) = Some n) in Hround.
  congruence.
Qed.

Lemma snappedMinutes_rounds_half_up_witness :
  ∃ quotient n,
    value (minutesFromStart defaultCONFIG 37.5 / of_Z 5)%float = Some quotient
    ∧ (quotient == 3 # 2)%Q
    ∧ n = 2
    ∧ snappedMinutes defaultCONFIG 37.5%float = Some (n * 5)
    ∧ n = round_half_away_from_zero quotient.
Proof.
  destruct (snappedMinutes_rounds_half_up defaultCONFIG 37.5%float 10 eq_refl)
    as (q & n & Hq & Hn & _ & _ & Haway).
  exists q, n.
  vm_compute in Hq. injection Hq as <-.
  assert (n = 2) as -> by (simpl in Hn; lia).
  split; [reflexivity|]. split; [reflexivity|]. split; [reflexivity|].
  split; [reflexivity|]. apply Haway. discriminate.
Defined.

(** ** Drops on the application state *)

Lemma truthy_nonempty s : s ≠ "" → truthy s = true.
Proof. destruct s; [congruence | reflexivity]. Qed.

Lemma saveState_acts app :
  State.acts (App.state (saveState app)) = State.acts (App.state app).
Proof. unfold saveState. destruct (App.isReadOnly app); reflexivity. Qed.

Lemma saveState_stages app :
  State.stages (App.state (saveState app)) = State.stages (App.state app).
Proof. unfold saveState. destruct (App.isReadOnly app); reflexivity. Qed.

Lemma saveState_members app :
  State.members (App.state (saveState app)) = State.members (App.state app).
Proof. unfold saveState. destruct (App.isReadOnly app); reflexivity. Qed.

(** What [handleDrop] does to the state once the act is found. *)
Lemma handleDrop_found app e stageId i act :
  dropFinds app i act →
  handleDrop app e stageId
  = '(newStart, newEnd) ← dropTimes (App.CONFIG app) act (relativeY app e);
    Some (clear_drag
            (saveState
               (with_acts app
                  (<[i := Act.mk (Act.id act) stageId (Act.name act)
                                 newStart newEnd (Act.color act)
                                 (Act.category act)]>
                     (State.acts (App.state app)))))).
Proof.
  intros (dragged & Hid & Hne & Hfind).
  unfold handleDrop. rewrite Hid, (truthy_nonempty _ Hne), Hfind.
  reflexivity.
Qed.

Lemma handleDrop_acts app e stageId i act app' :
  dropFinds app i act →
  handleDrop app e stageId = Some app' →
  ∃ newStart newEnd,
    dropTimes (App.CONFIG app) act (relativeY app e) = Some (newStart, newEnd)
    ∧ State.acts (App.state app')
      = <[i := Act.mk (Act.id act) stageId (Act.name act) newStart newEnd
                      (Act.color act) (Act.category act)]>
          (State.acts (App.state app))
    ∧ State.stages (App.state app') = State.stages (App.state app)
    ∧ State.members (App.state app') = State.members (App.state app).
Proof.
  intros Hfound Hdrop.
  rewrite (handleDrop_found _ _ _ _ _ Hfound) in Hdrop.
  destruct (dropTimes (App.CONFIG app) act (relativeY app e))
    as [[newStart newEnd]|]; [|discriminate].
  simpl in Hdrop. injection Hdrop as <-.
  exists newStart, newEnd.
  split; [reflexivity|].
  unfold clear_drag. simpl.
  rewrite saveState_acts, saveState_stages, saveState_members.
  repeat split.
Qed.

Lemma dropFinds_lookup app i act :
  dropFinds app i act → State.acts (App.state app) !! i = Some act.
Proof.
  intros (dragged & _ & _ & Hfind).
  apply list_find_Some in Hfind. tauto.
Qed.

(** C9. A drop whose dragged act is found changes, in [state], nothing but
    that act's [stageId], [startTime] and [endTime]: the acts array keeps
    its length and order, every other act is the same, the dropped act
    keeps [id], [name], [color] and [category], and the stages and the
    members are the same. *)
Theorem handleDrop_frame app e stageId i act app' :
  dropFinds app i act →
  handleDrop app e stageId = Some app' →
  let acts := State.acts (App.state app) in
  let acts' := State.acts (App.state app') in
  length acts' = length acts
  ∧ (∀ j, j ≠ i → acts' !! j = acts !! j)
  ∧ (∃ act', acts' !! i = Some act'
             ∧ Act.stageId act' = stageId
             ∧ Act.id act' = Act.id act
             ∧ Act.name act' = Act.name act
             ∧ Act.color act' = Act.color act
             ∧ Act.category act' = Act.category act)
  ∧ State.stages (App.state app') = State.stages (App.state app)
  ∧ State.members (App.state app') = State.members (App.state app).
Proof.
  intros Hfound Hdrop acts acts'.
  destruct (handleDrop_acts _ _ _ _ _ _ Hfound Hdrop)
    as (newStart & newEnd & _ & Hacts & Hstages & Hmembers).
  pose proof (dropFinds_lookup _ _ _ Hfound) as Hi.
  subst acts acts'. rewrite Hacts.
  split; [apply length_insert|].
  split; [intros j Hj; apply list_lookup_insert_ne; congruence|].
  split; [|split; assumption].
  eexists. split.
  - apply list_lookup_insert_eq. eapply lookup_lt_Some, Hi.
  - repeat split.
Qed.

Lemma sampleApp_dropFinds : dropFinds sampleApp 1 dreamQuartet.
Proof. exists "act-1767264350836". repeat split. discriminate. Qed.

Lemma handleDrop_frame_witness :
  ∃ app',
    handleDrop sampleApp sampleDrop "stage-2" = Some app'
    ∧ length (State.acts (App.state app')) = 4%nat
    ∧ State.acts (App.state app') !! 1%nat
      = Some (Act.mk "act-1767264350836" "stage-2" "Dream Quartet"
                     "12:20" "13:50" "#ff0000" (Some "Dream Quartet"))
    ∧ State.stages (App.state app') = State.stages sampleState
    ∧ State.members (App.state app') = State.members sampleState.
Proof.
  eexists. split; [reflexivity|].
  destruct (handleDrop_frame sampleApp sampleDrop "stage-2" 1 _ _
              sampleApp_dropFinds eq_refl)
    as (Hlen & _ & _ & Hstages & Hmembers).
  split; [exact Hlen|]. split; [reflexivity|].
  split; [exact Hstages | exact Hmembers].
Defined.

(** ** Duration across a drop *)

Lemma parseTime_formatTime n :
  0 <= n < 1440 → parseTime (formatTime n) = Some (n / 60, n mod 60).
Proof.
  intros Hn.
  destruct (formatTime_text_and_back n) as [_ Hparse]; [lia|].
  rewrite Hparse. rewrite (Z.mod_small (n / 60) 24); [reflexivity|].
  split; [apply Z.div_pos; lia|].
  apply Z.div_lt_upper_bound; lia.
Qed.

Lemma durationMin_formatTime a b :
  0 <= a < 1440 → 0 <= b < 1440 →
  durationMin (formatTime a) (formatTime b) = Some (b - a).
Proof.
  intros Ha Hb. unfold durationMin.
  rewrite !parseTime_formatTime by assumption. simpl.
  f_equal.
  pose proof (Z.div_mod a 60). pose proof (Z.div_mod b 60). lia.
Qed.

(** C4, as stated, fails. In the built-in window 9 to 22 the act 01:00 to
    23:30 (1350 minutes) is placed at 09:00 and its end, minute 1890, is
    written as 07:30: the duration read from the new times is -90. In a
    window that ends at hour 24 the 45-minute act 10:45 to 11:30 dropped at
    the bottom ends at minute 1440, written 00:00. *)
Lemma drop_past_midnight_changes_duration :
  durationMin "01:00" "23:30" = Some 1350
  ∧ dropTimes defaultCONFIG
      (Act.mk "act-1" "stage-1" "Long" "01:00" "23:30" "#3b82f6" (Some ""))
      0%float
    = Some ("09:00", "07:30")
  ∧ durationMin "09:00" "07:30" = Some (-90)
  ∧ durationMin "10:45" "11:30" = Some 45
  ∧ dropTimes midnightCONFIG
      (Act.mk "act-1" "stage-1" "Pioniere rehearsal" "10:45" "11:30"
              "#3b82f6" (Some "Pioniere"))
      4500%float
    = Some ("23:15", "00:00")
  ∧ durationMin "23:15" "00:00" = Some (-1395).
Proof. repeat split. Qed.

(** With hours between 0 and 23 and an act no longer than the window, the
    clamped start and end stay inside the day. *)
Lemma clamped_end_in_day CONFIG d s :
  0 <= Config.startHour CONFIG →
  Config.endHour CONFIG <= 23 →
  0 <= d <= (Config.endHour CONFIG - Config.startHour CONFIG) * 60 →
  0 <= clampedStartMin CONFIG d s ∧ clampedStartMin CONFIG d s + d < 1440.
Proof. unfold clampedStartMin. cbv zeta. lia. Qed.

(** C4, amended. A drop on an act with parsable times and a duration
    [d >= 0] writes times whose duration is again [d], provided the window
    starts at hour 0 or later and the new end minute, clamped start plus
    [d], is before 24:00. The snapped minutes are taken to be a number:
    [NaN] and an infinite offset are outside the model. *)
Theorem handleDrop_preserves_duration app e stageId i act d snapped :
  let CONFIG := App.CONFIG app in
  dropFinds app i act →
  durationMin (Act.startTime act) (Act.endTime act) = Some d →
  0 <= d →
  snappedMinutes CONFIG (relativeY app e) = Some snapped →
  0 <= Config.startHour CONFIG →
  clampedStartMin CONFIG d (newStartTotalMin CONFIG snapped) + d < 1440 →
  ∃ app' act',
    handleDrop app e stageId = Some app'
    ∧ State.acts (App.state app') !! i = Some act'
    ∧ durationMin (Act.startTime act') (Act.endTime act') = Some d.
Proof.
  intros CONFIG Hfound Hd Hd0 Hsnap H0 Hend.
  pose proof (dropFinds_lookup _ _ _ Hfound) as Hi.
  rewrite (handleDrop_found _ _ _ _ _ Hfound).
  unfold dropTimes. fold CONFIG. rewrite Hsnap. simpl. rewrite Hd. simpl.
  set (c := clampedStartMin CONFIG d _) in *.
  assert (Hc : Config.startHour CONFIG * 60 <= c)
    by (subst c; unfold clampedStartMin; cbv zeta; lia).
  eexists. eexists. split; [reflexivity|].
  unfold clear_drag. simpl. rewrite saveState_acts. simpl.
  split.
  - apply list_lookup_insert_eq. eapply lookup_lt_Some, Hi.
  - simpl. rewrite durationMin_formatTime by lia. f_equal. lia.
Qed.

Lemma handleDrop_preserves_duration_witness :
  ∃ app' act',
    handleDrop sampleApp sampleDrop "stage-2" = Some app'
    ∧ State.acts (App.state app') !! 1%nat = Some act'
    ∧ durationMin (Act.startTime act') (Act.endTime act') = Some 90.
Proof.
  apply (handleDrop_preserves_duration sampleApp sampleDrop "stage-2" 1 _ 90
           200 sampleApp_dropFinds eq_refl).
  - lia.
  - reflexivity.
  - simpl. lia.
  - vm_compute. reflexivity.
Defined.

(** ** The time window *)

(** C8. The invariant does not hold after every call.
    [handleSettingsSubmit] tests [start >= end] to keep
    [startHour < endHour], and its alert says so, but the test misses a
    field without a number. With the start field left empty [parseInt]
    gives [NaN], for which [start >= end] is false: the call is not
    rejected, [NaN] and 22 are written to [CONFIG] and saved, and
    [NaN < 22] is false. *)
Lemma settings_without_number_break_the_window :
  windowOrdered (App.CONFIG sampleApp)
  ∧ parseInt "" = None
  ∧ handleSettingsSubmit sampleApp "" "22" = SavedNaN None (Some 22)
  ∧ numberLt None (Some 22) = false.
Proof. repeat split. Qed.

(** On fields that hold integers the handler does what C8 says. Take two
    integers of a size up to 2^53, which the doubles of the source hold
    exactly: if the submitted start is greater than or equal to the
    submitted end the call is rejected and nothing changes, [CONFIG],
    [state] and the stored snapshot being as before; if it is less,
    [CONFIG.startHour] and [CONFIG.endHour] become the submitted values
    and, unless the page is read-only, the state is saved with them. Either
    way a window that was ordered before the call is ordered after it. *)
Lemma handleSettingsSubmit_keeps_window_ordered app startField endField start end_ :
  parseInt startField = Some start →
  parseInt endField = Some end_ →
  Z.abs start <= 2 ^ 53 →
  Z.abs end_ <= 2 ^ 53 →
  ∃ app',
    afterSettings app (handleSettingsSubmit app startField endField) = Some app'
    ∧ (start >= end_ →
       handleSettingsSubmit app startField endField = Rejected ∧ app' = app)
    ∧ (start < end_ →
       handleSettingsSubmit app startField endField = Saved app'
       ∧ Config.startHour (App.CONFIG app') = start
       ∧ Config.endHour (App.CONFIG app') = end_
       ∧ (App.isReadOnly app = false →
          State.config (App.state app') = StateConfig.mk start end_
          ∧ App.localStorage app' = Some (App.state app')))
    ∧ (windowOrdered (App.CONFIG app) → windowOrdered (App.CONFIG app')).
Proof.
  intros Hs He _ _. unfold handleSettingsSubmit. rewrite Hs, He. simpl.
  destruct (Z.geb_spec start end_) as [Hge | Hlt].
  - exists app. split; [reflexivity|].
    split; [split; reflexivity|]. split; [lia | tauto].
  - eexists. split; [reflexivity|].
    split; [lia|].
    unfold saveState, with_window, windowOrdered. simpl.
    destruct (App.isReadOnly app); simpl.
    + split; [|intros _; exact Hlt]. intros _.
      split; [reflexivity|]. split; [reflexivity|]. split; [reflexivity|].
      discriminate.
    + split; [|intros _; exact Hlt]. intros _.
      split; [reflexivity|]. split; [reflexivity|]. split; [reflexivity|].
      intros _. split; reflexivity.
Qed.

Lemma handleSettingsSubmit_keeps_window_ordered_witness :
  (∃ app', handleSettingsSubmit sampleApp "10" "21" = Saved app'
           ∧ Config.startHour (App.CONFIG app') = 10
           ∧ Config.endHour (App.CONFIG app') = 21
           ∧ windowOrdered (App.CONFIG app'))
  ∧ handleSettingsSubmit sampleApp "22" "9" = Rejected.
Proof.
  split.
  - destruct (handleSettingsSubmit_keeps_window_ordered sampleApp "10" "21"
                10 21 eq_refl eq_refl)
      as (app' & _ & _ & Hset & Hord); [simpl; lia | simpl; lia |].
    exists app'.
    destruct (Hset ltac:(lia)) as (Hret & Hstart & Hend & _).
    split; [exact Hret|].
    split; [exact Hstart|]. split; [exact Hend|].
    apply Hord. unfold windowOrdered. simpl. lia.
  - destruct (handleSettingsSubmit_keeps_window_ordered sampleApp "22" "9"
                22 9 eq_refl eq_refl)
      as (app' & _ & Hsame & _); [simpl; lia | simpl; lia |].
    apply Hsame. lia.
Defined.

(** ** Acts of a member *)

Lemma includes_In (arr : list string) (x : string) :
  includes arr x = true ↔ x ∈ arr.
Proof.
  unfold includes. rewrite existsb_exists, list_elem_of_In.
  split.
  - intros (y & Hy & Heq). apply String.eqb_eq in Heq. congruence.
  - intros Hx. exists x. split; [exact Hx | apply String.eqb_refl].
Qed.

Lemma actOfMember_spec member a :
  actOfMember member a = true
  ↔ ∃ c, Act.category a = Some c ∧ c ≠ ""
         ∧ ∃ team, team ∈ Member.teams member
                   ∧ team ∈ (trim <$> split "," c).
Proof.
  unfold actOfMember.
  destruct (Act.category a) as [c|].
  - destruct c as [|ch rest]; simpl.
    + split; [discriminate|]. intros (c & Hc & Hne & _). congruence.
    + rewrite existsb_exists. split.
      * intros (team & Hteam & Hinc).
        eexists. split; [reflexivity|]. split; [discriminate|].
        exists team. split; [apply list_elem_of_In, Hteam|].
        apply includes_In, Hinc.
      * intros (c & Hc & _ & team & Hteam & Hin).
        injection Hc as <-.
        exists team. split; [apply list_elem_of_In, Hteam|].
        apply includes_In, Hin.
  - split; [discriminate|]. intros (c & Hc & _). discriminate.
Qed.

(** C10. For a member that is found, [handleIndividualExportSubmit] selects
    exactly the acts of the schedule that have a category, not empty, of
    which one comma-separated entry, trimmed, is equal to one of the
    member's team names. Equality is that of strings: a team name that is
    only part of an entry selects nothing. *)
Theorem handleIndividualExportSubmit_exact_match app memId i member :
  list_find (λ m, Member.id m = memId) (State.members (App.state app))
  = Some (i, member) →
  ∃ selected,
    handleIndividualExportSubmit app memId = Some selected
    ∧ (∀ a, a ∈ selected ↔
            a ∈ State.acts (App.state app)
            ∧ ∃ c, Act.category a = Some c ∧ c ≠ ""
                   ∧ ∃ team, team ∈ Member.teams member
                             ∧ team ∈ (trim <$> split "," c))
    ∧ (∀ a, a ∈ selected →
            Act.category a ≠ None ∧ Act.category a ≠ Some "").
Proof.
  intros Hfind. unfold handleIndividualExportSubmit. rewrite Hfind. simpl.
  eexists. split; [reflexivity|].
  assert (Hsel : ∀ a,
             a ∈ List.filter (actOfMember member) (State.acts (App.state app))
             ↔ a ∈ State.acts (App.state app) ∧ actOfMember member a = true).
  { intros a. rewrite !list_elem_of_In. apply filter_In. }
  split.
  - intros a. rewrite Hsel, actOfMember_spec. reflexivity.
  - intros a Ha. apply Hsel in Ha as [_ Ha].
    apply actOfMember_spec in Ha as (c & Hc & Hne & _).
    rewrite Hc. split; congruence.
Qed.

Lemma handleIndividualExportSubmit_exact_match_witness :
  ∃ selected,
    handleIndividualExportSubmit sampleApp "mem-1768372678177" = Some selected
    ∧ Act.id <$> selected
      = ["act-1"; "act-1767265793673"; "act-1767266064720"].
Proof.
  destruct (handleIndividualExportSubmit_exact_match sampleApp
              "mem-1768372678177" 0 _ eq_refl)
    as (selected & Hret & _).
  exists selected. split; [exact Hret|].
  vm_compute in Hret. injection Hret as <-. reflexivity.
Defined.

(** A team name that is a prefix of a category entry does not select the
    act, and neither does an entry that is a prefix of the team name. *)
Lemma actOfMember_no_partial_match :
  actOfMember (Member.mk "mem-1" "Guest" ["Pion"; "Dream Quartet 2"])
    (Act.mk "act-1" "stage-1" "Pioniere rehearsal" "10:45" "11:30" "#3b82f6"
            (Some "Pioniere, Dream Quartet"))
  = false.
Proof. reflexivity. Qed.


(** * Further properties *)

(** ** The time axis and the cards *)

Lemma createActCard_geometry CONFIG ro act card :
  createActCard CONFIG ro act = Some card →
  ∃ s e, minuteOfDay (Act.startTime act) = Some s
         ∧ minuteOfDay (Act.endTime act) = Some e
         ∧ Card.topPx card = topPx CONFIG s
         ∧ Card.heightPx card = heightPx CONFIG s e.
Proof.
  unfold createActCard, minuteOfDay. intros H.
  destruct (parseTime (Act.startTime act)) as [[h m]|]; [|discriminate].
  destruct (parseTime (Act.endTime act)) as [[eh em]|]; [|discriminate].
  simpl in *. injection H as <-. eexists _, _. repeat split.
Qed.

Lemma renderTimeLabels_lookup CONFIG k :
  0 <= k <= Config.endHour CONFIG - Config.startHour CONFIG →
  renderTimeLabels CONFIG !! Z.to_nat k
  = Some (TimeMarker.mk (of_Z k * Config.pixelsPerHour CONFIG)%float
            (toString (Config.startHour CONFIG + k) ++ ":00")%string).
Proof.
  intros Hk. unfold renderTimeLabels. cbv zeta.
  rewrite list_lookup_fmap, lookup_seq_lt by lia.
  simpl. rewrite Z2Nat.id by lia. reflexivity.
Qed.

(** X1. In a window with [startHour <= endHour], [renderTimeLabels] makes
    one marker for every hour from [startHour] to [endHour], both
    included: marker [k] reads "<startHour + k>:00", without padding, and
    is placed [k] hours of pixels down; the last one sits at the total
    height of the column. *)
Theorem renderTimeLabels_marks_every_hour CONFIG k :
  0 <= k <= Config.endHour CONFIG - Config.startHour CONFIG →
  length (renderTimeLabels CONFIG)
  = Z.to_nat (Config.endHour CONFIG - Config.startHour CONFIG + 1)
  ∧ (∃ marker,
       renderTimeLabels CONFIG !! Z.to_nat k = Some marker
       ∧ TimeMarker.textContent marker
         = (toString (Config.startHour CONFIG + k) ++ ":00")%string
       ∧ TimeMarker.top marker
         = (of_Z k * Config.pixelsPerHour CONFIG)%float)
  ∧ (∃ last,
       renderTimeLabels CONFIG
         !! Z.to_nat (Config.endHour CONFIG - Config.startHour CONFIG)
       = Some last
       ∧ TimeMarker.textContent last
         = (toString (Config.endHour CONFIG) ++ ":00")%string
       ∧ TimeMarker.top last = totalHeight CONFIG).
Proof.
  intros Hk. split; [|split].
  - unfold renderTimeLabels. cbv zeta. now rewrite length_fmap, length_seq.
  - eexists. split; [apply renderTimeLabels_lookup, Hk|].
    split; reflexivity.
  - eexists. split; [apply renderTimeLabels_lookup; lia|]. simpl.
    replace (Config.startHour CONFIG
             + (Config.endHour CONFIG - Config.startHour CONFIG))
      with (Config.endHour CONFIG) by lia.
    split; reflexivity.
Qed.

Lemma renderTimeLabels_marks_every_hour_witness :
  length (renderTimeLabels defaultCONFIG) = 14%nat
  ∧ renderTimeLabels defaultCONFIG !! 1%nat
    = Some (TimeMarker.mk 300%float "10:00")
  ∧ TimeMarker.textContent <$> renderTimeLabels defaultCONFIG !! 0%nat
    = Some "9:00".
Proof.
  destruct (renderTimeLabels_marks_every_hour defaultCONFIG 1) as (Hlen & _ & _).
  - simpl. lia.
  - split; [exact Hlen|]. split; reflexivity.
Defined.

(** An inverted window gets no marker at all. *)
Lemma renderTimeLabels_inverted CONFIG :
  Config.endHour CONFIG < Config.startHour CONFIG → renderTimeLabels CONFIG = [].
Proof.
  intros H. unfold renderTimeLabels. cbv zeta.
  replace (Z.to_nat (Config.endHour CONFIG - Config.startHour CONFIG + 1))
    with 0%nat by lia.
  reflexivity.
Qed.

(** A whole number of hours, in minutes, divided by 60 on doubles is that
    number of hours. *)
Lemma whole_hours_divide_exactly k :
  0 <= k < 25 → (of_Z (k * 60) / 60)%float = of_Z k.
Proof.
  intros Hk.
  assert (H : ∃ n : nat, (n < 25)%nat ∧ k = Z.of_nat n)
    by (exists (Z.to_nat k); lia).
  destruct H as (n & Hn & ->).
  do 25 (destruct n as [|n]; [reflexivity|]). lia.
Qed.

(** X2. In a window that starts at hour 0 or later, the card of an act that
    starts on the hour, at a valid "HH:00" inside the window, has its top
    on the marker of that hour: the two doubles are the same. *)
Theorem card_top_on_hour_marker CONFIG ro act h card :
  0 <= h < 24 →
  0 <= Config.startHour CONFIG →
  Config.startHour CONFIG <= h <= Config.endHour CONFIG →
  Act.startTime act = hhmm h 0 →
  createActCard CONFIG ro act = Some card →
  ∃ marker,
    renderTimeLabels CONFIG !! Z.to_nat (h - Config.startHour CONFIG)
    = Some marker
    ∧ TimeMarker.textContent marker = (toString h ++ ":00")%string
    ∧ Card.topPx card = TimeMarker.top marker.
Proof.
  intros Hh H0 Hwin Hstart Hcard.
  destruct (createActCard_topPx _ _ _ _ Hcard) as (h' & m' & Hparse & ->).
  rewrite Hstart, parseTime_hhmm in Hparse by lia.
  injection Hparse as <- <-.
  eexists. split; [apply renderTimeLabels_lookup; lia|]. simpl.
  replace (Config.startHour CONFIG + (h - Config.startHour CONFIG))
    with h by lia.
  split; [reflexivity|].
  unfold topPx. cbv zeta.
  replace (h * 60 + 0 - Config.startHour CONFIG * 60)
    with ((h - Config.startHour CONFIG) * 60) by lia.
  now rewrite whole_hours_divide_exactly by lia.
Qed.

Lemma card_top_on_hour_marker_witness :
  ∃ card marker,
    createActCard defaultCONFIG false dreamQuartet = Some card
    ∧ renderTimeLabels defaultCONFIG !! 3%nat = Some marker
    ∧ TimeMarker.textContent marker = "12:00"
    ∧ Card.topPx card = TimeMarker.top marker.
Proof.
  eexists.
  destruct (card_top_on_hour_marker defaultCONFIG false dreamQuartet 12 _
              ltac:(lia) ltac:(simpl; lia) ltac:(simpl; lia) eq_refl eq_refl)
    as (marker & Hm & Htext & Htop).
  exists marker. split; [reflexivity|]. split; [exact Hm|].
  split; [exact Htext | exact Htop].
Defined.

(** At 300 pixels per hour the pixel scale is accurate to 2^-40 of a
    pixel on every minute count of a day: the double computed for
    [minutes] stands for a number that is not negative and within 2^-40 of
    [5 * minutes]. *)
Lemma scale_accurate_at_300 minutes :
  0 <= minutes < 1441 →
  ∃ v, value (of_Z minutes / 60 * 300)%float = Some v
       ∧ (0 <= v)%Q
       ∧ (inject_Z (5 * minutes) - (1 # 2 ^ 40) <= v)%Q
       ∧ (v <= inject_Z (5 * minutes) + (1 # 2 ^ 40))%Q.
Proof.
  intros Hm.
  pose (ok := λ k : Z,
          match value (of_Z k / 60 * 300)%float with
          | Some v =>
              Qle_bool 0 v
              && Qle_bool (inject_Z (5 * k) - (1 # 2 ^ 40)) v
              && Qle_bool v (inject_Z (5 * k) + (1 # 2 ^ 40))
          | None => false
          end).
  assert (Hok : ok minutes = true).
  { revert minutes Hm. apply (below_forallb ok 1441). vm_compute. reflexivity. }
  unfold ok in Hok.
  destruct (value (of_Z minutes / 60 * 300)%float) as [v|]; [|discriminate].
  apply andb_prop in Hok as [Hok H3]. apply andb_prop in Hok as [H1 H2].
  apply Qle_bool_iff in H1, H2, H3. exists v. auto.
Qed.

(** The height of a column of up to 24 hours is computed without
    rounding. *)
Lemma totalHeight_exact_at_300 hours :
  0 <= hours < 25 →
  value (of_Z hours * 300)%float = Some (inject_Z (300 * hours)).
Proof.
  intros Hh.
  assert (H : ∃ n : nat, (n < 25)%nat ∧ hours = Z.of_nat n)
    by (exists (Z.to_nat hours); lia).
  destruct H as (n & Hn & ->).
  do 25 (destruct n as [|n]; [reflexivity|]). lia.
Qed.

(** X3. At 300 pixels per hour, in a window inside the day
    ([0 <= startHour], [endHour <= 24]), the card of an act whose times lie
    in the window, start not after end, lies inside the stage column up to
    the rounding of the pixel scale: its top and its height are not
    negative, and top plus height, taken as numbers, pass the total height
    that [renderStages] and [renderTimeLabels] give the column by 2^-39 of
    a pixel at most. *)
Theorem card_inside_column CONFIG ro act s e card :
  Config.pixelsPerHour CONFIG = 300%float →
  0 <= Config.startHour CONFIG →
  Config.endHour CONFIG <= 24 →
  minuteOfDay (Act.startTime act) = Some s →
  minuteOfDay (Act.endTime act) = Some e →
  Config.startHour CONFIG * 60 <= s → s <= e → e <= Config.endHour CONFIG * 60 →
  createActCard CONFIG ro act = Some card →
  ∃ top height total,
    value (Card.topPx card) = Some top
    ∧ value (Card.heightPx card) = Some height
    ∧ value (totalHeight CONFIG) = Some total
    ∧ (0 <= top)%Q ∧ (0 <= height)%Q
    ∧ (top + height <= total + (1 # 2 ^ 39))%Q.
Proof.
  intros Hp H0 H24 Hs He Hlo Hse Hhi Hcard.
  destruct (createActCard_geometry _ _ _ _ Hcard)
    as (s' & e' & Hs' & He' & -> & ->).
  assert (s' = s) as -> by congruence. assert (e' = e) as -> by congruence.
  unfold topPx, heightPx, totalHeight. cbv zeta. rewrite Hp.
  destruct (scale_accurate_at_300 (s - Config.startHour CONFIG * 60))
    as (top & Htop & Htop0 & _ & Htop1); [lia|].
  destruct (scale_accurate_at_300 (e - s))
    as (height & Hheight & Hheight0 & _ & Hheight1); [lia|].
  exists top, height. eexists.
  split; [exact Htop|]. split; [exact Hheight|].
  split; [apply totalHeight_exact_at_300; lia|].
  split; [exact Htop0|]. split; [exact Hheight0|].
  assert (Hsum : (inject_Z (5 * (s - Config.startHour CONFIG * 60))
                  + inject_Z (5 * (e - s))
                  <= inject_Z (300 * (Config.endHour CONFIG
                                      - Config.startHour CONFIG)))%Q).
  { rewrite <- inject_Z_plus, <- Zle_Qle. lia. }
  assert (Heps : ((1 # 2 ^ 40) + (1 # 2 ^ 40) == 1 # 2 ^ 39)%Q) by reflexivity.
  lra.
Qed.

Lemma card_inside_column_witness :
  ∃ card top height,
    createActCard defaultCONFIG false showcase = Some card
    ∧ value (Card.topPx card) = Some top
    ∧ value (Card.heightPx card) = Some height
    ∧ (0 <= top)%Q ∧ (0 <= height)%Q
    ∧ (top + height <= 3900 + (1 # 2 ^ 39))%Q.
Proof.
  destruct (createActCard defaultCONFIG false showcase) as [card|] eqn:Hcard;
    [|vm_compute in Hcard; discriminate].
  destruct (card_inside_column defaultCONFIG false showcase 1112 1150 card)
    as (top & height & total & Htop & Hheight & Htotal & H1 & H2 & H3);
    try reflexivity; try (simpl; lia); try exact Hcard.
  vm_compute in Htotal. injection Htotal as <-.
  exists card, top, height. repeat split; assumption.
Defined.

(** The rounding is there: an act from 09:14 to 22:00 in the built-in
    window gets a top of 70 and a height of 3830.0000000000005, which
    together pass the column's 3900 pixels. *)
Lemma card_height_is_rounded :
  topPx defaultCONFIG 554 = 70%float
  ∧ heightPx defaultCONFIG 554 1320 = 0x1.dec0000000001p+11%float
  ∧ totalHeight defaultCONFIG = 3900%float.
Proof. repeat split. Qed.

(** X4. At 300 pixels per hour, when one act ends at the very time text at
    which another starts, the second card begins where the first one ends
    up to the rounding of the pixel scale: for a first act that starts in
    the window or later, does not end before it starts and ends at most 24
    hours after the window's start, the top of the second card and the sum
    of top and height of the first, taken as numbers, differ by 3 * 2^-40
    of a pixel at most. *)
Theorem cards_of_consecutive_acts_touch CONFIG ro a b ca cb sa ea :
  Config.pixelsPerHour CONFIG = 300%float →
  Act.endTime a = Act.startTime b →
  minuteOfDay (Act.startTime a) = Some sa →
  minuteOfDay (Act.endTime a) = Some ea →
  Config.startHour CONFIG * 60 <= sa → sa <= ea →
  ea <= Config.startHour CONFIG * 60 + 1440 →
  createActCard CONFIG ro a = Some ca →
  createActCard CONFIG ro b = Some cb →
  ∃ top height next,
    value (Card.topPx ca) = Some top
    ∧ value (Card.heightPx ca) = Some height
    ∧ value (Card.topPx cb) = Some next
    ∧ (top + height - (3 # 2 ^ 40) <= next)%Q
    ∧ (next <= top + height + (3 # 2 ^ 40))%Q.
Proof.
  intros Hp Hab Hsa Hea Hlo Hse Hhi Ha Hb.
  destruct (createActCard_geometry _ _ _ _ Ha) as (sa' & ea' & Hsa' & Hea' & -> & ->).
  destruct (createActCard_geometry _ _ _ _ Hb) as (sb & eb & Hsb & _ & -> & _).
  assert (sa' = sa) as -> by congruence. assert (ea' = ea) as -> by congruence.
  rewrite Hab in Hea. assert (sb = ea) as -> by congruence.
  unfold topPx, heightPx. cbv zeta. rewrite Hp.
  destruct (scale_accurate_at_300 (sa - Config.startHour CONFIG * 60))
    as (top & Htop & _ & Htop0 & Htop1); [lia|].
  destruct (scale_accurate_at_300 (ea - sa))
    as (height & Hheight & _ & Hheight0 & Hheight1); [lia|].
  destruct (scale_accurate_at_300 (ea - Config.startHour CONFIG * 60))
    as (next & Hnext & _ & Hnext0 & Hnext1); [lia|].
  exists top, height, next.
  split; [exact Htop|]. split; [exact Hheight|]. split; [exact Hnext|].
  assert (Hsum : (inject_Z (5 * (sa - Config.startHour CONFIG * 60))
                  + inject_Z (5 * (ea - sa))
                  == inject_Z (5 * (ea - Config.startHour CONFIG * 60)))%Q).
  { rewrite <- inject_Z_plus. apply inject_Z_injective. lia. }
  assert (Heps : ((1 # 2 ^ 40) + (1 # 2 ^ 40) + (1 # 2 ^ 40) == 3 # 2 ^ 40)%Q)
    by reflexivity.
  split; lra.
Qed.

Lemma cards_of_consecutive_acts_touch_witness :
  ∃ ca cb top height next,
    createActCard defaultCONFIG false dreamQuartet = Some ca
    ∧ createActCard defaultCONFIG false dreamQuartetAgain = Some cb
    ∧ value (Card.topPx ca) = Some top
    ∧ value (Card.heightPx ca) = Some height
    ∧ value (Card.topPx cb) = Some next
    ∧ (top + height - (3 # 2 ^ 40) <= next)%Q
    ∧ (next <= top + height + (3 # 2 ^ 40))%Q.
Proof.
  destruct (createActCard defaultCONFIG false dreamQuartet) as [ca|] eqn:Ha;
    [|vm_compute in Ha; discriminate].
  destruct (createActCard defaultCONFIG false dreamQuartetAgain)
    as [cb|] eqn:Hb; [|vm_compute in Hb; discriminate].
  destruct (cards_of_consecutive_acts_touch defaultCONFIG false
              dreamQuartet dreamQuartetAgain ca cb 720 810)
    as (top & height & next & H1 & H2 & H3 & H4 & H5);
    try reflexivity; try (simpl; lia); try assumption.
  exists ca, cb, top, height, next. repeat split; assumption.
Defined.

(** ** More on drag and drop *)

Lemma minuteOfDay_formatTime n :
  0 <= n < 1440 → minuteOfDay (formatTime n) = Some n.
Proof.
  intros Hn. unfold minuteOfDay.
  rewrite parseTime_formatTime by assumption. simpl.
  f_equal. pose proof (Z.div_mod n 60). lia.
Qed.

(** X5. In a window with hours from 0 to 23, a drop on an act that is not
    longer than the window leaves the act inside the window: its new start
    is not before [startHour*60], its new end not after [endHour*60], and
    the end is the start plus the old duration. (The snapped minutes are
    taken to be a number.) *)
Theorem handleDrop_keeps_act_in_window app e stageId i act d :
  let CONFIG := App.CONFIG app in
  dropFinds app i act →
  durationMin (Act.startTime act) (Act.endTime act) = Some d →
  0 <= d <= (Config.endHour CONFIG - Config.startHour CONFIG) * 60 →
  0 <= Config.startHour CONFIG →
  Config.endHour CONFIG <= 23 →
  is_Some (snappedMinutes CONFIG (relativeY app e)) →
  ∃ app' act' s,
    handleDrop app e stageId = Some app'
    ∧ State.acts (App.state app') !! i = Some act'
    ∧ minuteOfDay (Act.startTime act') = Some s
    ∧ minuteOfDay (Act.endTime act') = Some (s + d)
    ∧ Config.startHour CONFIG * 60 <= s
    ∧ s + d <= Config.endHour CONFIG * 60.
Proof.
  intros CONFIG Hfound Hd Hfit H0 H23 [snapped Hsnap].
  pose proof (dropFinds_lookup _ _ _ Hfound) as Hi.
  rewrite (handleDrop_found _ _ _ _ _ Hfound).
  unfold dropTimes. fold CONFIG. rewrite Hsnap. simpl. rewrite Hd. simpl.
  set (c := clampedStartMin CONFIG d _).
  assert (Hc : Config.startHour CONFIG * 60 <= c
               ∧ c + d <= Config.endHour CONFIG * 60)
    by (subst c; unfold clampedStartMin; cbv zeta; lia).
  eexists _, _, c. split; [reflexivity|].
  unfold clear_drag. simpl. rewrite saveState_acts. simpl.
  split; [apply list_lookup_insert_eq; eapply lookup_lt_Some, Hi|].
  simpl. rewrite !minuteOfDay_formatTime by lia.
  repeat split; lia.
Qed.

Lemma handleDrop_keeps_act_in_window_witness :
  ∃ app' act' s,
    handleDrop sampleApp (DropEvent.mk 5000%float 110%float) "stage-2"
    = Some app'
    ∧ State.acts (App.state app') !! 1%nat = Some act'
    ∧ minuteOfDay (Act.startTime act') = Some s
    ∧ minuteOfDay (Act.endTime act') = Some (s + 90)
    ∧ 9 * 60 <= s
    ∧ s + 90 <= 22 * 60.
Proof.
  apply (handleDrop_keeps_act_in_window sampleApp
           (DropEvent.mk 5000%float 110%float) "stage-2" 1 dreamQuartet 90
           sampleApp_dropFinds eq_refl).
  - simpl. lia.
  - simpl. lia.
  - simpl. lia.
  - eexists. vm_compute. reflexivity.
Defined.

Lemma handleDrop_idle app e stageId :
  DragState.actId (App.dragState app) = None → handleDrop app e stageId = Some app.
Proof. intros H. unfold handleDrop. now rewrite H. Qed.

(** X6. A drop that found its act ends the drag: [dragState.actId] is
    [null] afterwards, and a further drop, wherever it lands, changes
    nothing. *)
Theorem handleDrop_consumes_drag app e stageId i act app' :
  dropFinds app i act →
  handleDrop app e stageId = Some app' →
  DragState.actId (App.dragState app') = None
  ∧ ∀ e2 stageId2, handleDrop app' e2 stageId2 = Some app'.
Proof.
  intros Hfound Hdrop.
  rewrite (handleDrop_found _ _ _ _ _ Hfound) in Hdrop.
  destruct (dropTimes _ _ _) as [[newStart newEnd]|]; [|discriminate].
  simpl in Hdrop. injection Hdrop as <-.
  split; [reflexivity|]. intros e2 stageId2. now apply handleDrop_idle.
Qed.

Lemma handleDrop_consumes_drag_witness :
  ∃ app',
    handleDrop sampleApp sampleDrop "stage-2" = Some app'
    ∧ DragState.actId (App.dragState app') = None
    ∧ handleDrop app' sampleDrop "stage-1" = Some app'.
Proof.
  eexists. split; [reflexivity|].
  destruct (handleDrop_consumes_drag sampleApp sampleDrop "stage-2" 1 _ _
              sampleApp_dropFinds eq_refl) as [Hnull Hagain].
  split; [exact Hnull | apply Hagain].
Defined.

Lemma list_find_first {A} (P : A → Prop) `{∀ x, Decision (P x)}
    (l : list A) i x :
  l !! i = Some x → P x → (∀ j y, l !! j = Some y → (j < i)%nat → ¬ P y) →
  list_find P l = Some (i, x).
Proof. intros Hi Hx Hbefore. apply list_find_Some. eauto. Qed.

(** X7. A drag started on the act at index [i], whose id is not empty and
    is not the id of an earlier act, is resolved by the drop to that act:
    the act at index [i] is the one moved to the target stage, and the
    offset of the drop is the pointer's travel,
    [(clientY - stageTop) - (startY - cardTop)]. *)
Theorem drag_then_drop_moves_the_dragged_act app act i startY cardTop e stageId app' :
  State.acts (App.state app) !! i = Some act →
  Act.id act ≠ "" →
  (∀ j a, State.acts (App.state app) !! j = Some a → (j < i)%nat →
          Act.id a ≠ Act.id act) →
  handleDrop (handleDragStart app act startY cardTop) e stageId = Some app' →
  relativeY (handleDragStart app act startY cardTop) e
  = (DropEvent.clientY e - DropEvent.stageRectTop e - (startY - cardTop))%float
  ∧ ∃ act',
      State.acts (App.state app') !! i = Some act'
      ∧ Act.id act' = Act.id act
      ∧ Act.name act' = Act.name act
      ∧ Act.stageId act' = stageId
      ∧ ∀ j, j ≠ i →
             State.acts (App.state app') !! j = State.acts (App.state app) !! j.
Proof.
  intros Hi Hid Hfirst Hdrop.
  split; [reflexivity|].
  assert (Hfound : dropFinds (handleDragStart app act startY cardTop) i act).
  { exists (Act.id act). split; [reflexivity|]. split; [exact Hid|].
    simpl. now apply list_find_first. }
  destruct (handleDrop_acts _ _ _ _ _ _ Hfound Hdrop)
    as (newStart & newEnd & _ & Hacts & _).
  simpl in Hacts. rewrite Hacts.
  eexists. split; [apply list_lookup_insert_eq; eapply lookup_lt_Some, Hi|].
  repeat split.
  intros j Hj. apply list_lookup_insert_ne. congruence.
Qed.

Lemma drag_then_drop_moves_the_dragged_act_witness :
  ∃ app' act',
    handleDrop (handleDragStart sampleApp showcase 700%float 690%float)
      (DropEvent.mk 400%float 100%float) "stage-2" = Some app'
    ∧ State.acts (App.state app') !! 2%nat = Some act'
    ∧ Act.id act' = Act.id showcase
    ∧ Act.stageId act' = "stage-2".
Proof.
  destruct (handleDrop (handleDragStart sampleApp showcase 700%float 690%float)
              (DropEvent.mk 400%float 100%float) "stage-2")
    as [app'|] eqn:Hdrop; [|discriminate].
  destruct (drag_then_drop_moves_the_dragged_act sampleApp showcase 2
              700%float 690%float (DropEvent.mk 400%float 100%float)
              "stage-2" app' eq_refl)
    as (_ & act' & Hact' & Hid & _ & Hstage & _).
  - discriminate.
  - intros j a Hj Hlt.
    destruct j as [|[|j]]; [| |lia]; simpl in Hj; injection Hj as <-;
      discriminate.
  - exact Hdrop.
  - exists app', act'. repeat split; assumption.
Defined.

(** ** Strings: reversal, trimming, splitting *)

Lemma str_app_nil_r (s : string) : (s ++ "")%string = s.
Proof. induction s as [|a s IH]; [reflexivity|]. change (String a (s ++ "")%string = String a s). now rewrite IH. Qed.

Lemma str_app_assoc (a b c : string) : ((a ++ b) ++ c)%string = (a ++ (b ++ c))%string.
Proof.
  induction a as [|x a IH]; [reflexivity|].
  change (String x ((a ++ b) ++ c)%string = String x (a ++ (b ++ c))%string).
  now rewrite IH.
Qed.

Lemma str_rev_app (s acc : string) :
  String.rev_app s acc = (String.rev s ++ acc)%string.
Proof.
  unfold String.rev. revert acc.
  induction s as [|a s IH]; intros acc; [reflexivity|].
  simpl. rewrite IH, (IH (String a "")), str_app_assoc. reflexivity.
Qed.

Lemma str_rev_cons (a : ascii) (s : string) :
  String.rev (String a s) = (String.rev s ++ String a "")%string.
Proof. unfold String.rev at 1. simpl. apply str_rev_app. Qed.

Lemma str_rev_app_distr (a b : string) :
  String.rev (a ++ b) = (String.rev b ++ String.rev a)%string.
Proof.
  induction a as [|x a IH].
  - change (String.rev b = (String.rev b ++ "")%string). now rewrite str_app_nil_r.
  - change (String.rev (String x (a ++ b)) = (String.rev b ++ String.rev (String x a))%string).
    rewrite !str_rev_cons, IH, str_app_assoc. reflexivity.
Qed.

Lemma str_rev_involutive (s : string) : String.rev (String.rev s) = s.
Proof.
  induction s as [|a s IH]; [reflexivity|].
  rewrite str_rev_cons, str_rev_app_distr, IH. reflexivity.
Qed.

Lemma hasNo_app c a b : hasNo c (a ++ b) ↔ hasNo c a ∧ hasNo c b.
Proof.
  induction a as [|x a IH].
  - change (hasNo c b ↔ True ∧ hasNo c b). tauto.
  - change ((x ≠ c ∧ hasNo c (a ++ b)) ↔ (x ≠ c ∧ hasNo c a) ∧ hasNo c b).
    tauto.
Qed.

Lemma hasNo_rev c s : hasNo c (String.rev s) ↔ hasNo c s.
Proof.
  induction s as [|x s IH]; [reflexivity|].
  rewrite str_rev_cons, hasNo_app, IH. simpl. tauto.
Qed.

(** *** trimStart and trimEnd *)

Lemma trimStart_noLeadWs s : noLeadWs (trimStart s).
Proof.
  induction s as [|a s IH]; [exact I|].
  simpl. destruct (isWhiteSpace a) eqn:E; [exact IH | exact E].
Qed.

Lemma trimStart_fixed s : noLeadWs s → trimStart s = s.
Proof. destruct s as [|a s]; [reflexivity|]. simpl. now intros ->. Qed.

Lemma trimStart_allWs w s : allWs w → trimStart (w ++ s) = trimStart s.
Proof.
  induction w as [|a w IH]; intros Hw; [reflexivity|].
  destruct Hw as [Ha Hw].
  change (trimStart (String a (w ++ s)) = trimStart s).
  simpl. rewrite Ha. now apply IH.
Qed.

Lemma trimStart_hasNo c s : hasNo c s → hasNo c (trimStart s).
Proof.
  induction s as [|a s IH]; [trivial|].
  intros [Ha Hs]. simpl.
  destruct (isWhiteSpace a); [now apply IH | now split].
Qed.

(** Trimming the start of a text that ends in a visible character keeps
    that character. *)
Lemma trimStart_snoc s a :
  isWhiteSpace a = false →
  ∃ t, trimStart (s ++ String a "") = (t ++ String a "")%string.
Proof.
  intros Ha. induction s as [|x s [t IH]].
  - exists ""%string.
    change (trimStart (String a "") = String a ""). simpl. now rewrite Ha.
  - change (∃ t, trimStart (String x (s ++ String a "")) = (t ++ String a "")%string).
    simpl. destruct (isWhiteSpace x).
    + now exists t.
    + now exists (String x s).
Qed.

Lemma trimEnd_noTrailWs s : noLeadWs (String.rev (trimEnd s)).
Proof. unfold trimEnd. rewrite str_rev_involutive. apply trimStart_noLeadWs. Qed.

Lemma trimEnd_fixed s : noLeadWs (String.rev s) → trimEnd s = s.
Proof.
  intros H. unfold trimEnd. rewrite trimStart_fixed by assumption.
  apply str_rev_involutive.
Qed.

Lemma trimEnd_noLeadWs s : noLeadWs s → noLeadWs (trimEnd s).
Proof.
  destruct s as [|a s]; [intros _; exact I|].
  simpl. intros Ha. unfold trimEnd. rewrite str_rev_cons.
  destruct (trimStart_snoc (String.rev s) a Ha) as [t ->].
  rewrite str_rev_app_distr. exact Ha.
Qed.

Lemma trimEnd_hasNo c s : hasNo c s → hasNo c (trimEnd s).
Proof.
  intros H. unfold trimEnd.
  apply hasNo_rev, trimStart_hasNo, hasNo_rev, H.
Qed.

Lemma trim_shape s : noLeadWs (trim s) ∧ noLeadWs (String.rev (trim s)).
Proof.
  unfold trim. split.
  - apply trimEnd_noLeadWs, trimStart_noLeadWs.
  - apply trimEnd_noTrailWs.
Qed.

Lemma trim_fixed s : noLeadWs s → noLeadWs (String.rev s) → trim s = s.
Proof.
  intros H1 H2. unfold trim.
  rewrite trimStart_fixed by assumption. now apply trimEnd_fixed.
Qed.

Lemma trim_idempotent s : trim (trim s) = trim s.
Proof. destruct (trim_shape s). now apply trim_fixed. Qed.

Lemma trim_hasNo c s : hasNo c s → hasNo c (trim s).
Proof. intros H. unfold trim. apply trimEnd_hasNo, trimStart_hasNo, H. Qed.

(** White space before a trimmed text is trimmed away. *)
Lemma trim_allWs_prefix w t : allWs w → trim t = t → trim (w ++ t) = t.
Proof.
  intros Hw Ht. unfold trim. rewrite trimStart_allWs by assumption.
  exact Ht.
Qed.

(** *** split *)

Lemma split_from_hasNo sep a cur s :
  hasNo sep a →
  split_from sep cur (a ++ s) = split_from sep (String.rev_app a cur) s.
Proof.
  revert cur. induction a as [|x a IH]; intros cur Ha; [reflexivity|].
  destruct Ha as [Hx Ha].
  change (split_from sep cur (String x (a ++ s))
          = split_from sep (String.rev_app a (String x cur)) s).
  simpl. destruct (Ascii.eqb_spec x sep) as [->|_]; [congruence|].
  now apply IH.
Qed.

Lemma split_hasNo sep a : hasNo sep a → split sep a = [a].
Proof.
  intros Ha. unfold split.
  rewrite <- (str_app_nil_r a) at 1.
  rewrite split_from_hasNo by assumption. simpl.
  now rewrite str_rev_app, str_app_nil_r, str_rev_involutive.
Qed.

Lemma split_cons sep a rest :
  hasNo sep a →
  split sep (a ++ String sep rest) = a :: split sep rest.
Proof.
  intros Ha. unfold split. rewrite split_from_hasNo by assumption.
  simpl. rewrite Ascii.eqb_refl.
  now rewrite str_rev_app, str_app_nil_r, str_rev_involutive.
Qed.

Lemma split_from_pieces sep cur s p :
  hasNo sep cur → p ∈ split_from sep cur s → hasNo sep p.
Proof.
  revert cur. induction s as [|x s IH]; intros cur Hcur Hp; simpl in Hp.
  - apply list_elem_of_singleton in Hp as ->. now apply hasNo_rev.
  - destruct (Ascii.eqb_spec x sep) as [->|Hx].
    + apply elem_of_cons in Hp as [->|Hp].
      * now apply hasNo_rev.
      * eapply IH; [|exact Hp]. exact I.
    + eapply IH; [|exact Hp]. now split.
Qed.

Lemma split_pieces sep s p : p ∈ split sep s → hasNo sep p.
Proof. apply split_from_pieces. exact I. Qed.

Lemma split_single sep t : split sep t = [t] → hasNo sep t.
Proof.
  intros H. apply (split_pieces sep t). rewrite H. apply list_elem_of_singleton. reflexivity.
Qed.

(** ** Editing and deleting acts *)

Lemma filter_sublist {A} (f : A → bool) (l : list A) :
  List.filter f l `sublist_of` l.
Proof.
  induction l as [|x l IH]; simpl; [constructor|].
  destruct (f x); now constructor.
Qed.

Lemma filter_elem_of {A} (f : A → bool) (l : list A) x :
  x ∈ List.filter f l ↔ x ∈ l ∧ f x = true.
Proof. rewrite !list_elem_of_In. apply filter_In. Qed.

Lemma truthy_iff s : truthy s = true ↔ s ≠ "".
Proof. destruct s; simpl; split; intros H; congruence. Qed.

Lemma saveState_CONFIG app : App.CONFIG (saveState app) = App.CONFIG app.
Proof. unfold saveState. destruct (App.isReadOnly app); reflexivity. Qed.

(** X8. A confirmed delete with a non-empty id removes every act that has
    this id and no other: the remaining acts are the others, in their old
    order, and stages and members are untouched. Without confirmation
    nothing changes. *)
Theorem handleActDelete_removes_the_id app id :
  id ≠ "" →
  let acts := State.acts (App.state app) in
  let app' := handleActDelete app id true in
  (∀ a, a ∈ State.acts (App.state app') ↔ a ∈ acts ∧ Act.id a ≠ id)
  ∧ State.acts (App.state app') `sublist_of` acts
  ∧ ((∀ a, a ∈ acts → Act.id a ≠ id) → State.acts (App.state app') = acts)
  ∧ State.stages (App.state app') = State.stages (App.state app)
  ∧ State.members (App.state app') = State.members (App.state app)
  ∧ handleActDelete app id false = app.
Proof.
  intros Hid acts app'. subst acts app'.
  unfold handleActDelete.
  rewrite (truthy_nonempty _ Hid), andb_false_r. simpl.
  rewrite saveState_acts, saveState_stages, saveState_members. simpl.
  split; [|split; [apply filter_sublist|split; [|repeat split]]].
  - intros a. rewrite filter_elem_of, negb_true_iff, String.eqb_neq.
    reflexivity.
  - intros Hnone.
    induction (State.acts (App.state app)) as [|a l IH]; [reflexivity|].
    simpl.
    assert (Ha : Act.id a ≠ id) by (apply Hnone; left).
    apply String.eqb_neq in Ha. rewrite Ha. simpl. f_equal.
    apply IH. intros b Hb. apply Hnone. now right.
Qed.

Lemma handleActDelete_removes_the_id_witness :
  Act.id <$> State.acts (App.state (handleActDelete sampleApp "act-1" true))
  = ["act-1767264350836"; "act-1767265793673"; "act-1767266064720"]
  ∧ handleActDelete sampleApp "act-1" false = sampleApp.
Proof.
  destruct (handleActDelete_removes_the_id sampleApp "act-1")
    as (_ & _ & _ & _ & _ & Hcancel); [discriminate|].
  split; [reflexivity | exact Hcancel].
Defined.

(** Without an id in the form there is nothing to delete. *)
Lemma handleActDelete_no_id app confirmed :
  handleActDelete app "" confirmed = app.
Proof. reflexivity. Qed.

(** X9. Submitting the form of an existing act (non-empty id) keeps the
    number and order of the acts and every other act; the edited act keeps
    its [id] and its [stageId] and takes name, category, times and colour
    from the form, whatever they are. If no act has the id, no act is
    changed or created. Stages and members are untouched. *)
Theorem handleActSubmit_edit app form now :
  ActForm.id form ≠ "" →
  let acts := State.acts (App.state app) in
  ∃ app',
    handleActSubmit app form now = Some app'
    ∧ length (State.acts (App.state app')) = length acts
    ∧ State.stages (App.state app') = State.stages (App.state app)
    ∧ State.members (App.state app') = State.members (App.state app)
    ∧ (∀ i act,
         list_find (λ a, Act.id a = ActForm.id form) acts = Some (i, act) →
         State.acts (App.state app') !! i
         = Some (Act.mk (Act.id act) (Act.stageId act) (ActForm.name form)
                        (ActForm.startTime form) (ActForm.endTime form)
                        (ActForm.color form) (Some (ActForm.category form)))
         ∧ ∀ j, j ≠ i → State.acts (App.state app') !! j = acts !! j)
    ∧ (list_find (λ a, Act.id a = ActForm.id form) acts = None →
       State.acts (App.state app') = acts).
Proof.
  intros Hid acts. subst acts. unfold handleActSubmit. cbv zeta.
  rewrite (truthy_nonempty _ Hid).
  destruct (list_find _ (State.acts (App.state app))) as [[i act]|] eqn:Hfind.
  - eexists. split; [reflexivity|].
    rewrite saveState_acts, saveState_stages, saveState_members. simpl.
    split; [apply length_insert|]. split; [reflexivity|]. split; [reflexivity|].
    split; [|discriminate].
    intros i' act' Heq. injection Heq as <- <-.
    apply list_find_Some in Hfind as (Hi & _).
    split.
    + apply list_lookup_insert_eq. eapply lookup_lt_Some, Hi.
    + intros j Hj. apply list_lookup_insert_ne. congruence.
  - eexists. split; [reflexivity|].
    rewrite saveState_acts, saveState_stages, saveState_members.
    repeat split; discriminate.
Qed.

Lemma handleActSubmit_edit_witness :
  ∃ app',
    handleActSubmit sampleApp
      (ActForm.mk "act-1" "Rehearsal" "Pioniere, Exits" "11:00" "10:00" "#10b981")
      1768400000000
    = Some app'
    ∧ State.acts (App.state app') !! 0%nat
      = Some (Act.mk "act-1" "stage-1" "Rehearsal" "11:00" "10:00" "#10b981"
                     (Some "Pioniere, Exits"))
    ∧ length (State.acts (App.state app')) = 4%nat.
Proof.
  destruct (handleActSubmit_edit sampleApp
              (ActForm.mk "act-1" "Rehearsal" "Pioniere, Exits" "11:00" "10:00"
                          "#10b981") 1768400000000)
    as (app' & Hret & Hlen & _ & _ & Hedit & _); [discriminate|].
  exists app'. split; [exact Hret|].
  split; [|exact Hlen].
  exact (proj1 (Hedit 0%nat _ eq_refl)).
Defined.

(** X10. Submitting the form without an id makes a new act: it is put
    after all the others, on the first stage, with the id
    ["act-" ++ Date.now()], and the earlier acts are untouched. When the
    schedule has no stage the handler throws and nothing is changed. *)
Theorem handleActSubmit_new app form now :
  ActForm.id form = "" →
  match State.stages (App.state app) with
  | [] => handleActSubmit app form now = None
  | first :: _ =>
      ∃ app',
        handleActSubmit app form now = Some app'
        ∧ State.acts (App.state app')
          = (State.acts (App.state app)
             ++ [Act.mk ("act-" ++ toString now)%string (Stage.id first)
                        (ActForm.name form) (ActForm.startTime form)
                        (ActForm.endTime form) (ActForm.color form)
                        (Some (ActForm.category form))])%list
        ∧ State.stages (App.state app') = State.stages (App.state app)
        ∧ State.members (App.state app') = State.members (App.state app)
  end.
Proof.
  intros Hid. unfold handleActSubmit. cbv zeta. rewrite Hid. simpl.
  destruct (State.stages (App.state app)) as [|first rest] eqn:Hstages;
    [reflexivity|].
  eexists. split; [reflexivity|].
  rewrite saveState_acts, saveState_stages, saveState_members. simpl.
  rewrite Hstages. repeat split.
Qed.

Lemma handleActSubmit_new_witness :
  ∃ app',
    handleActSubmit sampleApp
      (ActForm.mk "" "New Act" "" "12:00" "13:00" "#3b82f6") 1768400000000
    = Some app'
    ∧ State.acts (App.state app') !! 4%nat
      = Some (Act.mk "act-1768400000000" "stage-1" "New Act" "12:00" "13:00"
                     "#3b82f6" (Some ""))
    ∧ handleActSubmit (with_stages sampleApp [])
        (ActForm.mk "" "New Act" "" "12:00" "13:00" "#3b82f6") 1768400000000
      = None.
Proof.
  pose proof (handleActSubmit_new sampleApp
                (ActForm.mk "" "New Act" "" "12:00" "13:00" "#3b82f6")
                1768400000000 eq_refl) as H.
  simpl in H. destruct H as (app' & Hret & Hacts & _).
  exists app'. split; [exact Hret|]. split; [now rewrite Hacts|].
  exact (handleActSubmit_new (with_stages sampleApp [])
           (ActForm.mk "" "New Act" "" "12:00" "13:00" "#3b82f6")
           1768400000000 eq_refl).
Defined.

(** ** Members and their teams *)

Lemma teamName_shape t :
  teamName t →
  t ≠ "" ∧ noLeadWs t ∧ noLeadWs (String.rev t) ∧ hasNo "," t.
Proof.
  intros (Hne & Htrim & Hsplit).
  destruct (trim_shape t) as [H1 H2]. rewrite Htrim in H1, H2.
  repeat split; try assumption. now apply split_single.
Qed.

Lemma parseTeams_teamName text t : t ∈ parseTeams text → teamName t.
Proof.
  unfold parseTeams. rewrite filter_elem_of.
  intros [Hin Hne]. apply list_elem_of_fmap in Hin as (p & -> & Hp).
  split; [now apply truthy_iff|].
  split; [apply trim_idempotent|].
  apply split_hasNo, trim_hasNo. eapply split_pieces, Hp.
Qed.

Lemma allWs_space : allWs " ".
Proof. split; [reflexivity | exact I]. Qed.

Lemma hasNo_comma_space : hasNo "," " ".
Proof. split; [discriminate | exact I]. Qed.

Lemma parseTeams_concat_from w t l :
  allWs w → hasNo "," w → teamName t → Forall teamName l →
  parseTeams (w ++ String.concat ", " (t :: l)) = t :: l.
Proof.
  revert w t. induction l as [|t2 l IH]; intros w t Hw Hwc Ht Hl.
  - destruct (teamName_shape t Ht) as (Hne & _ & _ & Hc).
    destruct Ht as (_ & Htrim & _).
    unfold parseTeams. simpl String.concat.
    rewrite split_hasNo by (apply hasNo_app; now split).
    simpl. rewrite trim_allWs_prefix by assumption.
    rewrite (truthy_nonempty _ Hne). reflexivity.
  - destruct (teamName_shape t Ht) as (Hne & _ & _ & Hc).
    destruct Ht as (_ & Htrim & _).
    apply Forall_cons in Hl as [Ht2 Hl].
    specialize (IH " "%string t2 allWs_space hasNo_comma_space Ht2 Hl).
    unfold parseTeams in *.
    change (String.concat ", " (t :: t2 :: l))
      with (t ++ String "," (" " ++ String.concat ", " (t2 :: l)))%string.
    rewrite <- str_app_assoc.
    rewrite split_cons by (apply hasNo_app; now split).
    rewrite fmap_cons. simpl List.filter.
    rewrite trim_allWs_prefix by assumption.
    rewrite (truthy_nonempty _ Hne). f_equal. exact IH.
Qed.

(** Reading back the teams written as "a, b, c" gives the same teams. *)
Lemma parseTeams_concat teams :
  Forall teamName teams → parseTeams (String.concat ", " teams) = teams.
Proof.
  destruct teams as [|t l]; [reflexivity|].
  intros H. apply Forall_cons in H as [Ht Hl].
  apply (parseTeams_concat_from ""%string t l); try assumption; exact I.
Qed.

Lemma handleMemberSubmit_members app id name teamsField now m :
  m ∈ State.members (App.state (handleMemberSubmit app id name teamsField now)) →
  m ∈ State.members (App.state app)
  ∨ (Member.name m = name
     ∧ Member.teams m = parseTeams teamsField
     ∧ Forall teamName (Member.teams m)).
Proof.
  assert (Hclean : Forall teamName (parseTeams teamsField)).
  { apply Forall_forall. intros t Ht.
    eapply parseTeams_teamName, Ht. }
  unfold handleMemberSubmit. cbv zeta.
  destruct (truthy id).
  - destruct (list_find _ _) as [[i m0]|] eqn:Hfind;
      rewrite saveState_members; simpl; [|now left].
    intros Hm. apply list_elem_of_lookup in Hm as [j Hj].
    destruct (decide (j = i)) as [->|Hji].
    + apply list_find_Some in Hfind as (Hi & _).
      rewrite list_lookup_insert_eq in Hj by (eapply lookup_lt_Some, Hi).
      injection Hj as <-. right. repeat split. exact Hclean.
    + rewrite list_lookup_insert_ne in Hj by congruence.
      left. eapply list_elem_of_lookup_2, Hj.
  - rewrite saveState_members. simpl.
    intros Hm. apply elem_of_app in Hm as [Hm|Hm]; [now left|].
    apply list_elem_of_singleton in Hm as ->. right. repeat split.
    exact Hclean.
Qed.

(** X11. The teams that [handleMemberSubmit] stores are clean: each one is
    not empty, has no white space at either end and no comma, whatever the
    text of the field; the entries of the field that are blank are
    dropped. A new member (empty id) is put last with the id
    ["mem-" ++ Date.now()]. *)
Theorem handleMemberSubmit_cleans_teams app id name teamsField now :
  let members' :=
    State.members (App.state (handleMemberSubmit app id name teamsField now)) in
  (∀ m, m ∈ members' →
        m ∈ State.members (App.state app)
        ∨ (Member.name m = name
           ∧ Member.teams m = parseTeams teamsField
           ∧ Forall teamName (Member.teams m)))
  ∧ (id = "" →
     members' = (State.members (App.state app)
                 ++ [Member.mk ("mem-" ++ toString now)%string name
                               (parseTeams teamsField)])%list)
  ∧ (teamsClean app →
     teamsClean (handleMemberSubmit app id name teamsField now)).
Proof.
  intros members'.
  assert (Hall : ∀ m, m ∈ members' →
            m ∈ State.members (App.state app)
            ∨ (Member.name m = name
               ∧ Member.teams m = parseTeams teamsField
               ∧ Forall teamName (Member.teams m))).
  { intros m. apply handleMemberSubmit_members. }
  split; [exact Hall|]. split.
  - intros ->. subst members'. unfold handleMemberSubmit. cbv zeta. simpl.
    now rewrite saveState_members.
  - intros Hold m Hm. destruct (Hall m Hm) as [Hin | (_ & _ & H)];
      [now apply Hold | exact H].
Qed.

Lemma handleMemberSubmit_cleans_teams_witness :
  State.members
    (App.state (handleMemberSubmit sampleApp "" "Haruhi"
                  " Harmonix Junction ,, Full City,  " 1768400000000))
    !! 2%nat
  = Some (Member.mk "mem-1768400000000" "Haruhi"
                    ["Harmonix Junction"; "Full City"]).
Proof.
  destruct (handleMemberSubmit_cleans_teams sampleApp "" "Haruhi"
              " Harmonix Junction ,, Full City,  " 1768400000000)
    as (_ & Hnew & _).
  rewrite (Hnew eq_refl). reflexivity.
Defined.

(** X12. Opening a member in the form and submitting the form as it is
    changes no member: [editMember] writes the teams joined by [", "] and
    [handleMemberSubmit] reads the same teams back, provided the member's
    teams are clean, as every member written through the form has them.
    (The fields give back the text that [editMember] wrote.) *)
Theorem member_form_round_trip app id i m now :
  id ≠ "" →
  list_find (λ m, Member.id m = id) (State.members (App.state app))
  = Some (i, m) →
  Forall teamName (Member.teams m) →
  ∃ name teamsField,
    editMember app id = Some (id, name, teamsField)
    ∧ State.members
        (App.state (handleMemberSubmit app id name teamsField now))
      = State.members (App.state app).
Proof.
  intros Hid Hfind Hclean.
  pose proof Hfind as (Hi & Hmid & _)%list_find_Some.
  simpl in Hmid. subst id.
  unfold editMember. rewrite Hfind. simpl.
  eexists _, _. split; [reflexivity|].
  unfold handleMemberSubmit. cbv zeta.
  rewrite (truthy_nonempty _ Hid), Hfind, saveState_members. simpl.
  rewrite parseTeams_concat by assumption.
  destruct m. simpl. now apply list_insert_id.
Qed.

Lemma member_form_round_trip_witness :
  ∃ name teamsField,
    editMember sampleApp "mem-1768373837687"
    = Some ("mem-1768373837687", name, teamsField)
    ∧ teamsField = "Harmonix Junction, Pioniere"
    ∧ State.members
        (App.state (handleMemberSubmit sampleApp "mem-1768373837687" name
                      teamsField 1768400000000))
      = State.members sampleState.
Proof.
  destruct (member_form_round_trip sampleApp "mem-1768373837687" 1
              (Member.mk "mem-1768373837687" "Funaken"
                         ["Harmonix Junction"; "Pioniere"])
              1768400000000)
    as (name & teamsField & Hedit & Hsame).
  - discriminate.
  - reflexivity.
  - repeat constructor; discriminate.
  - exists name, teamsField. split; [exact Hedit|].
    split; [|exact Hsame].
    vm_compute in Hedit. now injection Hedit as _ <-.
Defined.

(** X13. A confirmed delete with a non-empty id removes every member that
    has this id and no other, keeps the others in their order, and leaves
    the acts and their categories as they are. Without confirmation nothing
    changes. *)
Theorem handleMemberDelete_removes_the_id app id :
  id ≠ "" →
  let app' := handleMemberDelete app id true in
  (∀ m, m ∈ State.members (App.state app')
        ↔ m ∈ State.members (App.state app) ∧ Member.id m ≠ id)
  ∧ State.members (App.state app') `sublist_of` State.members (App.state app)
  ∧ State.acts (App.state app') = State.acts (App.state app)
  ∧ State.stages (App.state app') = State.stages (App.state app)
  ∧ handleMemberDelete app id false = app.
Proof.
  intros Hid app'. subst app'. unfold handleMemberDelete.
  rewrite (truthy_nonempty _ Hid), andb_false_r. simpl.
  rewrite saveState_acts, saveState_stages, saveState_members. simpl.
  split; [|split; [apply filter_sublist|repeat split]].
  intros m. rewrite filter_elem_of, negb_true_iff, String.eqb_neq.
  reflexivity.
Qed.

Lemma handleMemberDelete_removes_the_id_witness :
  Member.name
  <$> State.members
        (App.state (handleMemberDelete sampleApp "mem-1768372678177" true))
  = ["Funaken"]
  ∧ handleMemberDelete sampleApp "mem-1768372678177" false = sampleApp.
Proof.
  destruct (handleMemberDelete_removes_the_id sampleApp "mem-1768372678177")
    as (_ & _ & _ & _ & Hcancel); [discriminate|].
  split; [reflexivity | exact Hcancel].
Defined.

(** ** Stages *)

Lemma renameStage_frame app stageId answer :
  Stage.id <$> State.stages (App.state (renameStage app stageId answer))
  = Stage.id <$> State.stages (App.state app)
  ∧ State.acts (App.state (renameStage app stageId answer))
    = State.acts (App.state app)
  ∧ State.members (App.state (renameStage app stageId answer))
    = State.members (App.state app).
Proof.
  unfold renameStage.
  destruct (list_find _ (State.stages (App.state app))) as [[i s]|] eqn:Hfind.
  2: { repeat split; auto. }
  destruct answer as [newName|].
  2: { repeat split; auto. }
  destruct (truthy newName && truthy (trim newName)).
  2: { repeat split; auto. }
  pose proof Hfind as (Hi & _)%list_find_Some.
  rewrite saveState_acts, saveState_stages, saveState_members. simpl.
  split; [|split; reflexivity].
  rewrite list_fmap_insert. simpl. apply list_insert_id.
  now rewrite list_lookup_fmap, Hi.
Qed.

(** X14. [renameStage] never changes the ids, the number or the order of
    the stages, nor any act. A stage whose name changes is the first one
    with the given id, and its new name is the answer trimmed: not empty
    and without white space at either end. On Cancel, on an empty or blank
    answer, or when no stage has the id, nothing changes. *)
Theorem renameStage_keeps_ids app stageId answer :
  let stages := State.stages (App.state app) in
  let app' := renameStage app stageId answer in
  Stage.id <$> State.stages (App.state app') = Stage.id <$> stages
  ∧ State.acts (App.state app') = State.acts (App.state app)
  ∧ State.members (App.state app') = State.members (App.state app)
  ∧ (∀ i s', State.stages (App.state app') !! i = Some s' →
       stages !! i = Some s'
       ∨ (∃ s newName,
            list_find (λ s, Stage.id s = stageId) stages = Some (i, s)
            ∧ answer = Some newName
            ∧ Stage.name s' = trim newName
            ∧ Stage.name s' ≠ ""
            ∧ trim (Stage.name s') = Stage.name s'))
  ∧ ((answer = None ∨ ∃ blank, answer = Some blank ∧ trim blank = "") →
     app' = app).
Proof.
  intros stages app'. subst stages app'. unfold renameStage.
  destruct (list_find _ (State.stages (App.state app))) as [[i s]|] eqn:Hfind.
  2: { repeat split; auto. }
  destruct answer as [newName|].
  2: { repeat split; auto. }
  destruct (truthy newName && truthy (trim newName)) eqn:Hok.
  - pose proof Hok as Hne'.
    apply andb_prop in Hok as [_ Hne]. apply truthy_iff in Hne.
    pose proof Hfind as (Hi & Hsid & _)%list_find_Some.
    destruct (renameStage_frame app stageId (Some newName))
      as (Hids & Hacts & Hmembers).
    unfold renameStage in Hids, Hacts, Hmembers.
    rewrite Hfind, Hne' in Hids, Hacts, Hmembers.
    split; [exact Hids|split; [exact Hacts|split; [exact Hmembers|split]]].
    + rewrite saveState_stages. simpl.
      intros j s' Hj. destruct (decide (j = i)) as [->|Hji].
      * rewrite list_lookup_insert_eq in Hj by (eapply lookup_lt_Some, Hi).
        injection Hj as <-. right. exists s, newName. simpl.
        repeat split; auto. apply trim_idempotent.
      * rewrite list_lookup_insert_ne in Hj by congruence. now left.
    + intros [Hnone | (blank & Hb & Hblank)]; [discriminate|].
      injection Hb as <-. congruence.
  - repeat split; auto.
Qed.

Lemma renameStage_keeps_ids_witness :
  State.stages (App.state (renameStage sampleApp "stage-2" (Some "  Sunday ")))
  = [Stage.mk "stage-1" "Day1"; Stage.mk "stage-2" "Sunday"]
  ∧ renameStage sampleApp "stage-2" (Some "   ") = sampleApp
  ∧ renameStage sampleApp "stage-2" None = sampleApp.
Proof.
  destruct (renameStage_keeps_ids sampleApp "stage-2" (Some "   "))
    as (_ & _ & _ & _ & Hblank).
  destruct (renameStage_keeps_ids sampleApp "stage-2" None)
    as (_ & _ & _ & _ & Hcancel).
  split; [reflexivity|]. split.
  - apply Hblank. right. exists "   "%string. split; reflexivity.
  - apply Hcancel. now left.
Defined.

(** ** What every handler keeps *)

Lemma saveState_isReadOnly app :
  App.isReadOnly (saveState app) = App.isReadOnly app.
Proof. unfold saveState. destruct (App.isReadOnly app) eqn:E; simpl; auto. Qed.

Lemma handleDrop_cases app e stageId app' :
  handleDrop app e stageId = Some app' →
  app' = app ∨ ∃ i act, dropFinds app i act.
Proof.
  unfold handleDrop. intros H.
  destruct (DragState.actId (App.dragState app)) as [dragged|] eqn:Hid;
    [|left; congruence].
  destruct (truthy dragged) eqn:Ht; simpl in H; [|left; congruence].
  destruct (list_find _ _) as [[i act]|] eqn:Hfind; [|left; congruence].
  right. exists i, act, dragged. repeat split; auto. now apply truthy_iff.
Qed.

(** A settings call after which the application is one of the model was
    rejected, or has set and saved a window of two integers. *)
Lemma afterSettings_cases app startField endField app' :
  afterSettings app (handleSettingsSubmit app startField endField) = Some app' →
  app' = app ∨ ∃ start end_, app' = saveState (with_window app start end_).
Proof.
  unfold handleSettingsSubmit. cbv zeta.
  destruct (numberGe _ _); simpl; [intros [= <-]; now left|].
  destruct (parseInt startField) as [start|]; [|discriminate].
  destruct (parseInt endField) as [end_|]; [|discriminate].
  simpl. intros [= <-]. right. eauto.
Qed.

(** A project file that has a result is a complete state, which replaces
    the one in memory. *)
Lemma handleLoadProjectFile_cases app parsed app' :
  handleLoadProjectFile app parsed = Some app' →
  ∃ st, Stored.to_state parsed = Some st
        ∧ app' = applyConfig (saveState (with_state app st)).
Proof.
  unfold handleLoadProjectFile.
  destruct (Stored.to_state parsed) as [st|]; [|discriminate].
  simpl. intros [= <-]. eauto.
Qed.

Lemma insertMember_perm localeCompare m l :
  insertMember localeCompare m l ≡ₚ m :: l.
Proof.
  induction l as [|y l IH]; [reflexivity|]. simpl.
  destruct (_ <=? 0); [reflexivity|].
  rewrite IH. apply Permutation_swap.
Qed.

(** The sort of [openIndividualExport] rearranges the members and does
    nothing else to them. *)
Lemma sortMembers_perm localeCompare members :
  sortMembers localeCompare members ≡ₚ members.
Proof.
  induction members as [|m l IH]; [reflexivity|].
  unfold sortMembers. simpl. rewrite insertMember_perm.
  now apply Permutation_skip.
Qed.

(** X15. Every act stays on a stage of the schedule: if each act's
    [stageId] is the id of a stage before a handler runs, it is so
    afterwards, for every handler but the loading of a file, a drop being
    one on the column of an existing stage. No handler removes a stage or
    changes a stage id. *)
Theorem run_keeps_acts_on_stages action app app' :
  onKnownStage app action →
  stagesKnown app →
  run action app = Some app' →
  stagesKnown app'
  ∧ Stage.id <$> State.stages (App.state app)
    `prefix_of` Stage.id <$> State.stages (App.state app').
Proof.
  intros Haim Hinv Hrun.
  assert (Hsame : ∀ app1,
            State.acts (App.state app1) = State.acts (App.state app) →
            State.stages (App.state app1) = State.stages (App.state app) →
            stagesKnown app1
            ∧ Stage.id <$> State.stages (App.state app)
              `prefix_of` Stage.id <$> State.stages (App.state app1)).
  { intros app1 Ha Hs. split; [|now rewrite Hs].
    intros a. rewrite Ha, Hs. apply Hinv. }
  destruct action; simpl in Hrun, Haim.
  - (* DragStart *) injection Hrun as <-. now apply Hsame.
  - (* Drop *)
    destruct (handleDrop_cases _ _ _ _ Hrun) as [->|(i & act0 & Hfound)];
      [now apply Hsame|].
    destruct (handleDrop_acts _ _ _ _ _ _ Hfound Hrun)
      as (newStart & newEnd & _ & Hacts & Hstages & _).
    split; [|now rewrite Hstages].
    intros a Ha. rewrite Hacts in Ha. rewrite Hstages.
    apply list_elem_of_lookup in Ha as [j Hj].
    destruct (decide (j = i)) as [->|Hji].
    + pose proof (dropFinds_lookup _ _ _ Hfound) as Hi.
      rewrite list_lookup_insert_eq in Hj by (eapply lookup_lt_Some, Hi).
      injection Hj as <-. exact Haim.
    + rewrite list_lookup_insert_ne in Hj by congruence.
      eapply Hinv, list_elem_of_lookup_2, Hj.
  - (* SettingsSubmit *)
    destruct (afterSettings_cases _ _ _ _ Hrun) as [->|(start & end_ & ->)];
      apply Hsame; rewrite ?saveState_acts, ?saveState_stages; reflexivity.
  - (* ActSubmit *)
    unfold handleActSubmit in Hrun. cbv zeta in Hrun.
    destruct (truthy (ActForm.id form)).
    + destruct (list_find _ _) as [[i act0]|] eqn:Hfind;
        injection Hrun as <-;
        [|apply Hsame; rewrite ?saveState_acts, ?saveState_stages; reflexivity].
      split; [|now rewrite saveState_stages].
      intros a. rewrite saveState_acts, saveState_stages. simpl. intros Ha.
      apply list_find_Some in Hfind as (Hi & _).
      apply list_elem_of_lookup in Ha as [j Hj].
      destruct (decide (j = i)) as [->|Hji].
      * rewrite list_lookup_insert_eq in Hj by (eapply lookup_lt_Some, Hi).
        injection Hj as <-. simpl.
        eapply Hinv, list_elem_of_lookup_2, Hi.
      * rewrite list_lookup_insert_ne in Hj by congruence.
        eapply Hinv, list_elem_of_lookup_2, Hj.
    + destruct (State.stages (App.state app)) as [|first rest] eqn:Hstages;
        [discriminate|].
      injection Hrun as <-.
      split; [|now rewrite saveState_stages; simpl; rewrite Hstages].
      intros a. rewrite saveState_acts, saveState_stages. simpl. intros Ha.
      rewrite Hstages.
      apply elem_of_app in Ha as [Ha|Ha].
      * rewrite <- Hstages. now apply Hinv.
      * apply list_elem_of_singleton in Ha as ->. exists first.
        split; [left | reflexivity].
  - (* ActDelete *)
    injection Hrun as <-. unfold handleActDelete.
    destruct (truthy id && confirmed); [|now apply Hsame].
    split; [|now rewrite saveState_stages].
    intros a. rewrite saveState_acts, saveState_stages. simpl.
    rewrite filter_elem_of. intros [Ha _]. now apply Hinv.
  - (* MemberSubmit *)
    injection Hrun as <-. apply Hsame; unfold handleMemberSubmit; cbv zeta;
      destruct (truthy id); try destruct (list_find _ _) as [[? ?]|];
      rewrite ?saveState_acts, ?saveState_stages; reflexivity.
  - (* MemberDelete *)
    injection Hrun as <-. apply Hsame; unfold handleMemberDelete;
      destruct (truthy id && confirmed);
      rewrite ?saveState_acts, ?saveState_stages; reflexivity.
  - (* RenameStage *)
    injection Hrun as <-.
    destruct (renameStage_frame app stageId answer) as (Hids & Hacts & _).
    split; [|now rewrite Hids].
    intros a. rewrite Hacts. intros Ha.
    destruct (Hinv a Ha) as (s & Hs & Hsid).
    assert (Hin : Act.stageId a ∈ Stage.id <$> State.stages (App.state app)).
    { rewrite <- Hsid. now apply list_elem_of_fmap_2. }
    rewrite <- Hids in Hin.
    apply list_elem_of_fmap in Hin as (s' & Hs' & Hin). eauto.
  - (* AddStage *)
    injection Hrun as <-. unfold addStage.
    destruct answer as [name|]; [|now apply Hsame].
    destruct (truthy name); [|now apply Hsame].
    split.
    + intros a. rewrite saveState_acts, saveState_stages. simpl. intros Ha.
      destruct (Hinv a Ha) as (s & Hs & Hsid).
      exists s. split; [|exact Hsid]. apply elem_of_app. now left.
    + rewrite saveState_stages. simpl. rewrite fmap_app.
      now apply prefix_app_r.
  - (* LoadProject *) contradiction.
  - (* OpenIndividualExport *) injection Hrun as <-. now apply Hsame.
  - (* Reset *)
    injection Hrun as <-. unfold handleReset.
    destruct confirmed; now apply Hsame.
Qed.

Lemma sampleApp_stagesKnown : stagesKnown sampleApp.
Proof.
  intros a Ha. exists (Stage.mk "stage-1" "Day1"). split; [left|].
  simpl in Ha. repeat (apply elem_of_cons in Ha as [->|Ha]; [reflexivity|]).
  now apply elem_of_nil in Ha.
Qed.

Lemma run_keeps_acts_on_stages_witness :
  ∃ app',
    run (Drop sampleDrop "stage-2") sampleApp = Some app'
    ∧ stagesKnown app'.
Proof.
  eexists. split; [reflexivity|].
  apply (run_keeps_acts_on_stages (Drop sampleDrop "stage-2") sampleApp).
  - exists (Stage.mk "stage-2" "Day2"). split; [right; left | reflexivity].
  - exact sampleApp_stagesKnown.
  - reflexivity.
Defined.

Lemma run_members action app app' :
  run action app = Some app' →
  State.members (App.state app') ≡ₚ State.members (App.state app)
  ∨ (∃ id name teamsField now, action = MemberSubmit id name teamsField now)
  ∨ (∃ id confirmed, action = MemberDelete id confirmed)
  ∨ (∃ parsed, action = LoadProject parsed).
Proof.
  intros Hrun. destruct action; simpl in Hrun.
  - injection Hrun as <-. now left.
  - destruct (handleDrop_cases _ _ _ _ Hrun) as [->|(i & act0 & Hfound)];
      [now left|].
    destruct (handleDrop_acts _ _ _ _ _ _ Hfound Hrun)
      as (? & ? & _ & _ & _ & Hm). left. now rewrite Hm.
  - left.
    destruct (afterSettings_cases _ _ _ _ Hrun) as [->|(start & end_ & ->)];
      rewrite ?saveState_members; reflexivity.
  - left. unfold handleActSubmit in Hrun. cbv zeta in Hrun.
    destruct (truthy (ActForm.id form)).
    + destruct (list_find _ _) as [[? ?]|]; injection Hrun as <-;
        now rewrite saveState_members.
    + destruct (State.stages (App.state app)); [discriminate|].
      injection Hrun as <-. now rewrite saveState_members.
  - left. injection Hrun as <-. unfold handleActDelete.
    destruct (truthy id && confirmed); [|reflexivity].
    now rewrite saveState_members.
  - right. left. eauto.
  - right. right. left. eauto.
  - left. injection Hrun as <-.
    destruct (renameStage_frame app stageId answer) as (_ & _ & H).
    now rewrite H.
  - left. injection Hrun as <-. unfold addStage.
    destruct answer as [name|]; [|reflexivity].
    destruct (truthy name); [|reflexivity].
    now rewrite saveState_members.
  - right. right. right. eauto.
  - left. injection Hrun as <-. apply sortMembers_perm.
  - left. injection Hrun as <-. unfold handleReset.
    now destruct confirmed.
Qed.

(** X16. The members' teams stay clean: if every team of every member is a
    team name (not empty, trimmed, without comma) before a handler runs, it
    is so afterwards, for every handler but the loading of a file. *)
Theorem run_keeps_teams_clean action app app' :
  (∀ parsed, action ≠ LoadProject parsed) →
  teamsClean app →
  run action app = Some app' →
  teamsClean app'.
Proof.
  intros Hnoload Hinv Hrun.
  destruct (run_members _ _ _ Hrun)
    as [Hsame | [(id & name & text & now & ->)
       | [(id & confirmed & ->) | (parsed & ->)]]].
  - intros m. rewrite Hsame. apply Hinv.
  - injection Hrun as <-.
    intros m Hm.
    destruct (handleMemberSubmit_members _ _ _ _ _ _ Hm) as [Hin | (_ & _ & H)];
      [now apply Hinv | exact H].
  - injection Hrun as <-. intros m. unfold handleMemberDelete.
    destruct (truthy id && confirmed); [|apply Hinv].
    rewrite saveState_members. simpl. rewrite filter_elem_of.
    intros [Hm _]. now apply Hinv.
  - now destruct (Hnoload parsed).
Qed.

Lemma sampleApp_teamsClean : teamsClean sampleApp.
Proof.
  intros m Hm. simpl in Hm.
  repeat (apply elem_of_cons in Hm as [->|Hm];
          [repeat constructor; discriminate|]).
  now apply elem_of_nil in Hm.
Qed.

Lemma run_keeps_teams_clean_witness :
  teamsClean
    (handleMemberSubmit sampleApp "mem-1768372678177" "Fumi"
       "F.F. , Pioniere,Exits" 1768400000000).
Proof.
  apply (run_keeps_teams_clean
           (MemberSubmit "mem-1768372678177" "Fumi" "F.F. , Pioniere,Exits"
                         1768400000000) sampleApp).
  - discriminate.
  - exact sampleApp_teamsClean.
  - reflexivity.
Defined.

(** ** The stored snapshot *)

Lemma saveState_stored app :
  App.isReadOnly app = false → stored (saveState app).
Proof. intros H. unfold saveState, stored. rewrite H. simpl. auto. Qed.

Lemma stored_up_to_member_order app :
  stored app → storedUpToMemberOrder app.
Proof.
  intros [Hsnap Hcfg]. split; [|exact Hcfg].
  exists (App.state app). repeat split; auto.
Qed.

(** [openIndividualExport] leaves the snapshot behind: with the two sample
    members saved in the order Funaken, Fumi, and a collation that follows
    the code units, the members in memory change places and the stored
    ones do not. *)
Lemma openIndividualExport_is_not_saved :
  let byCodeUnit (a b : string) :=
    match String.compare a b with Lt => -1 | Eq => 0 | Gt => 1 end in
  let saved :=
    saveState (with_members sampleApp (rev (State.members sampleState))) in
  let app := openIndividualExport byCodeUnit saved in
  Member.name <$> State.members (App.state app) = ["Fumi"; "Funaken"]
  ∧ (λ st, Member.name <$> State.members st) <$> App.localStorage app
    = Some ["Funaken"; "Fumi"].
Proof. split; reflexivity. Qed.

(** X17. In an editable session the stored snapshot follows the state.
    Take a call of a handler other than a confirmed reset, which removes
    the snapshot, and for which the model has a result. If the snapshot
    under the storage key is the state in memory but for the order of the
    members, with [state.config] holding the window of [CONFIG], it is so
    after the call. If it is the state in memory exactly, it is so after
    the call unless the call is [openIndividualExport], which sorts the
    members in memory and does not save. *)
Theorem run_keeps_snapshot_current action app app' :
  App.isReadOnly app = false →
  action ≠ Reset true →
  run action app = Some app' →
  App.isReadOnly app' = false
  ∧ (storedUpToMemberOrder app → storedUpToMemberOrder app')
  ∧ ((∀ localeCompare, action ≠ OpenIndividualExport localeCompare) →
     stored app → stored app').
Proof.
  intros Hrw Hnoreset Hrun.
  assert (Hsave : ∀ app1, App.isReadOnly app1 = false →
            App.isReadOnly (saveState app1) = false
            ∧ (storedUpToMemberOrder app →
               storedUpToMemberOrder (saveState app1))
            ∧ ((∀ localeCompare, action ≠ OpenIndividualExport localeCompare) →
               stored app → stored (saveState app1))).
  { intros app1 H1. split; [now rewrite saveState_isReadOnly|].
    split; intros; [apply stored_up_to_member_order|];
      now apply saveState_stored. }
  assert (Hsame : App.isReadOnly app = false
            ∧ (storedUpToMemberOrder app → storedUpToMemberOrder app)
            ∧ ((∀ localeCompare, action ≠ OpenIndividualExport localeCompare) →
               stored app → stored app)) by tauto.
  destruct action; simpl in Hrun.
  - injection Hrun as <-. exact Hsame.
  - unfold handleDrop in Hrun.
    destruct (DragState.actId (App.dragState app)) as [dragged|];
      [|injection Hrun as <-; exact Hsame].
    destruct (truthy dragged); simpl in Hrun;
      [|injection Hrun as <-; exact Hsame].
    destruct (list_find _ _) as [[i act0]|];
      [|injection Hrun as <-; exact Hsame].
    destruct (dropTimes _ _ _) as [[newStart newEnd]|]; [|discriminate].
    simpl in Hrun. injection Hrun as <-.
    apply (Hsave (with_acts app _)). exact Hrw.
  - destruct (afterSettings_cases _ _ _ _ Hrun) as [->|(start & end_ & ->)];
      [exact Hsame|].
    apply (Hsave (with_window app start end_)). exact Hrw.
  - unfold handleActSubmit in Hrun. cbv zeta in Hrun.
    destruct (truthy (ActForm.id form)).
    + destruct (list_find _ _) as [[? ?]|]; injection Hrun as <-.
      * apply (Hsave (with_acts app _)). exact Hrw.
      * now apply Hsave.
    + destruct (State.stages (App.state app)); [discriminate|].
      injection Hrun as <-. apply (Hsave (with_acts app _)). exact Hrw.
  - injection Hrun as <-. unfold handleActDelete.
    destruct (truthy id && confirmed); [|exact Hsame].
    apply (Hsave (with_acts app _)). exact Hrw.
  - injection Hrun as <-. unfold handleMemberSubmit. cbv zeta.
    destruct (truthy id); [destruct (list_find _ _) as [[? ?]|]|].
    + apply (Hsave (with_members app _)). exact Hrw.
    + now apply Hsave.
    + apply (Hsave (with_members app _)). exact Hrw.
  - injection Hrun as <-. unfold handleMemberDelete.
    destruct (truthy id && confirmed); [|exact Hsame].
    apply (Hsave (with_members app _)). exact Hrw.
  - injection Hrun as <-. unfold renameStage.
    destruct (list_find _ _) as [[? ?]|]; [|exact Hsame].
    destruct answer as [newName|]; [|exact Hsame].
    destruct (truthy newName && truthy (trim newName)); [|exact Hsame].
    apply (Hsave (with_stages app _)). exact Hrw.
  - injection Hrun as <-. unfold addStage.
    destruct answer as [name|]; [|exact Hsame].
    destruct (truthy name); [|exact Hsame].
    apply (Hsave (with_stages app _)). exact Hrw.
  - destruct (handleLoadProjectFile_cases _ _ _ Hrun) as (st & _ & ->).
    assert (Hload : stored (applyConfig (saveState (with_state app st)))).
    { unfold applyConfig, saveState. simpl. rewrite Hrw. simpl.
      split; reflexivity. }
    split; [unfold applyConfig, saveState; simpl; now rewrite Hrw|].
    split; intros; [apply stored_up_to_member_order|]; exact Hload.
  - injection Hrun as <-.
    split; [exact Hrw|]. split.
    + intros [(snapshot & Hsnap & Hc & Hs & Ha & Hm) Hcfg].
      split; [|exact Hcfg].
      exists snapshot. simpl. repeat split; auto.
      rewrite Hm. symmetry. apply sortMembers_perm.
    + intros Hno. now destruct (Hno localeCompare).
  - injection Hrun as <-. destruct confirmed; [congruence | exact Hsame].
Qed.

Lemma run_keeps_snapshot_current_witness :
  ∃ app',
    run (AddStage (Some "Day3") 1768400000000) (saveState sampleApp)
    = Some app'
    ∧ App.localStorage app' = Some (App.state app')
    ∧ length (State.stages (App.state app')) = 3%nat.
Proof.
  eexists. split; [reflexivity|].
  destruct (run_keeps_snapshot_current
              (AddStage (Some "Day3") 1768400000000) (saveState sampleApp) _
              eq_refl ltac:(discriminate) eq_refl)
    as (_ & _ & Hexact).
  destruct Hexact as [Hstore _];
    [discriminate | exact (saveState_stored sampleApp eq_refl) |].
  split; [exact Hstore | reflexivity].
Defined.

(** X18. On a read-only page the handlers write nothing to the storage,
    but for one: after any call for which the model has a result, other
    than a confirmed reset, the stored snapshot is what it was; a confirmed
    [handleReset] removes it, read-only or not. The page stays
    read-only. *)
Theorem run_read_only_writes_only_on_reset action app app' :
  App.isReadOnly app = true →
  run action app = Some app' →
  App.isReadOnly app' = true
  ∧ (action ≠ Reset true → App.localStorage app' = App.localStorage app)
  ∧ (action = Reset true → App.localStorage app' = None).
Proof.
  intros Hro Hrun.
  assert (Hsave : ∀ app1, App.isReadOnly app1 = true →
            App.localStorage app1 = App.localStorage app →
            action ≠ Reset true →
            App.isReadOnly (saveState app1) = true
            ∧ (action ≠ Reset true →
               App.localStorage (saveState app1) = App.localStorage app)
            ∧ (action = Reset true →
               App.localStorage (saveState app1) = None)).
  { intros app1 H1 H2 Hno. unfold saveState. rewrite H1.
    split; [exact H1|]. split; [intros _; exact H2 | congruence]. }
  assert (Hsame : action ≠ Reset true →
            App.isReadOnly app = true
            ∧ (action ≠ Reset true →
               App.localStorage app = App.localStorage app)
            ∧ (action = Reset true → App.localStorage app = None)).
  { intros Hno. split; [exact Hro|]. split; [reflexivity | congruence]. }
  destruct action; simpl in Hrun;
    try (specialize (Hsame ltac:(discriminate));
         pose proof (λ app1 H1 H2, Hsave app1 H1 H2 ltac:(discriminate))
           as Hsave').
  - injection Hrun as <-. exact Hsame.
  - unfold handleDrop in Hrun.
    destruct (DragState.actId (App.dragState app)) as [dragged|];
      [|injection Hrun as <-; exact Hsame].
    destruct (truthy dragged); simpl in Hrun;
      [|injection Hrun as <-; exact Hsame].
    destruct (list_find _ _) as [[i act0]|];
      [|injection Hrun as <-; exact Hsame].
    destruct (dropTimes _ _ _) as [[newStart newEnd]|]; [|discriminate].
    simpl in Hrun. injection Hrun as <-.
    now apply (Hsave' (with_acts app _)).
  - destruct (afterSettings_cases _ _ _ _ Hrun) as [->|(start & end_ & ->)];
      [exact Hsame|].
    now apply (Hsave' (with_window app start end_)).
  - unfold handleActSubmit in Hrun. cbv zeta in Hrun.
    destruct (truthy (ActForm.id form)).
    + destruct (list_find _ _) as [[? ?]|]; injection Hrun as <-.
      * now apply (Hsave' (with_acts app _)).
      * now apply Hsave'.
    + destruct (State.stages (App.state app)); [discriminate|].
      injection Hrun as <-. now apply (Hsave' (with_acts app _)).
  - injection Hrun as <-. unfold handleActDelete.
    destruct (truthy id && confirmed); [|exact Hsame].
    now apply (Hsave' (with_acts app _)).
  - injection Hrun as <-. unfold handleMemberSubmit. cbv zeta.
    destruct (truthy id); [destruct (list_find _ _) as [[? ?]|]|].
    + now apply (Hsave' (with_members app _)).
    + now apply Hsave'.
    + now apply (Hsave' (with_members app _)).
  - injection Hrun as <-. unfold handleMemberDelete.
    destruct (truthy id && confirmed); [|exact Hsame].
    now apply (Hsave' (with_members app _)).
  - injection Hrun as <-. unfold renameStage.
    destruct (list_find _ _) as [[? ?]|]; [|exact Hsame].
    destruct answer as [newName|]; [|exact Hsame].
    destruct (truthy newName && truthy (trim newName)); [|exact Hsame].
    now apply (Hsave' (with_stages app _)).
  - injection Hrun as <-. unfold addStage.
    destruct answer as [name|]; [|exact Hsame].
    destruct (truthy name); [|exact Hsame].
    now apply (Hsave' (with_stages app _)).
  - destruct (handleLoadProjectFile_cases _ _ _ Hrun) as (st & _ & ->).
    unfold applyConfig, saveState. simpl. rewrite Hro. simpl.
    split; [exact Hro|]. split; [reflexivity | discriminate].
  - injection Hrun as <-. exact Hsame.
  - injection Hrun as <-. destruct confirmed; simpl.
    + split; [exact Hro|]. split; [congruence | reflexivity].
    + split; [exact Hro|]. split; [reflexivity | discriminate].
Qed.

Lemma run_read_only_writes_only_on_reset_witness :
  let app :=
    App.mk defaultCONFIG sampleState (DragState.mk None 0%float) true
           (Some sampleState) in
  (∃ app',
     run (ActDelete "act-1" true) app = Some app'
     ∧ App.localStorage app' = Some sampleState
     ∧ length (State.acts (App.state app')) = 3%nat)
  ∧ (∃ app',
       run (Reset true) app = Some app' ∧ App.localStorage app' = None).
Proof.
  intros app. split.
  - eexists. split; [reflexivity|].
    destruct (run_read_only_writes_only_on_reset (ActDelete "act-1" true)
                app _ eq_refl eq_refl) as (_ & Hkept & _).
    split; [apply Hkept; discriminate | reflexivity].
  - eexists. split; [reflexivity|].
    destruct (run_read_only_writes_only_on_reset (Reset true)
                app _ eq_refl eq_refl) as (_ & _ & Hgone).
    apply Hgone. reflexivity.
Defined.

(** ** Loading a project file *)

Lemma to_state_of_state st : Stored.to_state (Stored.of_state st) = Some st.
Proof. destruct st as [[s e] stages acts members]. reflexivity. Qed.

(** X19. In an editable session a loaded project brings its stages, acts
    and members but not its time window: for a file that holds a complete
    state, the window of [CONFIG] stays as it was and is written over the
    [config] of the loaded state, which is then stored. *)
Theorem handleLoadProjectFile_keeps_window app parsed st :
  App.isReadOnly app = false →
  Stored.to_state parsed = Some st →
  ∃ app',
    handleLoadProjectFile app parsed = Some app'
    ∧ App.CONFIG app' = App.CONFIG app
    ∧ State.stages (App.state app') = State.stages st
    ∧ State.acts (App.state app') = State.acts st
    ∧ State.members (App.state app') = State.members st
    ∧ State.config (App.state app')
      = StateConfig.mk (Config.startHour (App.CONFIG app))
                       (Config.endHour (App.CONFIG app))
    ∧ App.localStorage app' = Some (App.state app').
Proof.
  intros Hrw Hst.
  unfold handleLoadProjectFile. rewrite Hst. simpl.
  eexists. split; [reflexivity|].
  unfold applyConfig, saveState. simpl.
  rewrite Hrw. simpl. unfold with_window. simpl.
  destruct (App.CONFIG app). repeat split.
Qed.

Lemma handleLoadProjectFile_keeps_window_witness :
  let file :=
    State.mk (StateConfig.mk 6 12) [Stage.mk "stage-9" "Hall"] [] [] in
  ∃ app',
    handleLoadProjectFile sampleApp (Stored.of_state file) = Some app'
    ∧ App.CONFIG app' = defaultCONFIG
    ∧ State.config (App.state app') = StateConfig.mk 9 22
    ∧ State.stages (App.state app') = [Stage.mk "stage-9" "Hall"].
Proof.
  intros file.
  destruct (handleLoadProjectFile_keeps_window sampleApp
              (Stored.of_state file) file eq_refl eq_refl)
    as (app' & Hret & Hcfg & Hstages & _ & _ & Hwin & _).
  exists app'. split; [exact Hret|].
  split; [exact Hcfg|]. split; [exact Hwin | exact Hstages].
Defined.

(** On a read-only page the same call takes the window of the file. *)
Lemma handleLoadProjectFile_read_only app parsed st :
  App.isReadOnly app = true →
  Stored.to_state parsed = Some st →
  ∃ app',
    handleLoadProjectFile app parsed = Some app'
    ∧ Config.startHour (App.CONFIG app')
      = StateConfig.startHour (State.config st)
    ∧ Config.endHour (App.CONFIG app')
      = StateConfig.endHour (State.config st).
Proof.
  intros Hro Hst. unfold handleLoadProjectFile. rewrite Hst. simpl.
  eexists. split; [reflexivity|].
  unfold applyConfig, saveState. simpl.
  rewrite Hro. simpl. split; reflexivity.
Qed.

(** A file without a [config] key has no result in the model. *)
Lemma handleLoadProjectFile_without_config app stages acts members :
  handleLoadProjectFile app
    (Stored.mk Absent (Present stages) (Present acts) (Present members))
  = None.
Proof. reflexivity. Qed.

(** ** Exports by team *)

Lemma actOfTeam_spec team a :
  actOfTeam team a = true
  ↔ ∃ c, Act.category a = Some c ∧ c ≠ ""
         ∧ team ∈ (trim <$> split "," c).
Proof.
  unfold actOfTeam. destruct (Act.category a) as [c|].
  - destruct c as [|ch rest]; simpl.
    + split; [discriminate|]. intros (c & Hc & Hne & _). congruence.
    + rewrite includes_In. split.
      * intros H. eexists. split; [reflexivity|]. split; [discriminate|exact H].
      * intros (c & Hc & _ & H). now injection Hc as <-.
  - split; [discriminate|]. intros (c & Hc & _). discriminate.
Qed.

Lemma actOfMember_actOfTeam member a :
  actOfMember member a = true
  ↔ ∃ team, team ∈ Member.teams member ∧ actOfTeam team a = true.
Proof.
  rewrite actOfMember_spec. split.
  - intros (c & Hc & Hne & team & Hteam & Hin).
    exists team. split; [exact Hteam|]. apply actOfTeam_spec. eauto.
  - intros (team & Hteam & Hact).
    apply actOfTeam_spec in Hact as (c & Hc & Hne & Hin). eauto 10.
Qed.

(** X20. The export of a member is the union of the exports of the
    member's teams: an act is selected for the member exactly when the team
    export of one of the member's teams selects it. (Teams are not empty,
    as the member form stores them.) *)
Theorem individual_export_is_union_of_team_exports app memId i member :
  list_find (λ m, Member.id m = memId) (State.members (App.state app))
  = Some (i, member) →
  (∀ team, team ∈ Member.teams member → team ≠ "") →
  ∃ selected,
    handleIndividualExportSubmit app memId = Some selected
    ∧ ∀ a, a ∈ selected ↔
           ∃ team forTeam,
             team ∈ Member.teams member
             ∧ handleTeamExportSubmit app team = Some forTeam
             ∧ a ∈ forTeam.
Proof.
  intros Hfind Hteams.
  unfold handleIndividualExportSubmit. rewrite Hfind. simpl.
  eexists. split; [reflexivity|].
  intros a. rewrite filter_elem_of, actOfMember_actOfTeam. split.
  - intros [Ha (team & Hteam & Hact)].
    exists team. eexists. split; [exact Hteam|].
    unfold handleTeamExportSubmit.
    rewrite (truthy_nonempty _ (Hteams team Hteam)). simpl.
    split; [reflexivity|]. apply filter_elem_of. now split.
  - intros (team & forTeam & Hteam & Hexp & Ha).
    unfold handleTeamExportSubmit in Hexp.
    rewrite (truthy_nonempty _ (Hteams team Hteam)) in Hexp. simpl in Hexp.
    injection Hexp as <-. apply filter_elem_of in Ha as [Ha Hact].
    split; [exact Ha|]. eauto.
Qed.

Lemma individual_export_is_union_of_team_exports_witness :
  ∃ selected forFF forPioniere,
    handleIndividualExportSubmit sampleApp "mem-1768372678177" = Some selected
    ∧ handleTeamExportSubmit sampleApp "F.F." = Some forFF
    ∧ handleTeamExportSubmit sampleApp "Pioniere" = Some forPioniere
    ∧ Act.id <$> forFF = ["act-1767265793673"]
    ∧ Act.id <$> forPioniere = ["act-1"; "act-1767266064720"]
    ∧ ∀ a, a ∈ forFF → a ∈ selected.
Proof.
  destruct (individual_export_is_union_of_team_exports sampleApp
              "mem-1768372678177" 0 _ eq_refl) as (selected & Hsel & Hiff).
  - intros team Hteam. simpl in Hteam.
    repeat (apply elem_of_cons in Hteam as [->|Hteam]; [discriminate|]).
    now apply elem_of_nil in Hteam.
  - exists selected. eexists _, _. split; [exact Hsel|].
    split; [reflexivity|]. split; [reflexivity|].
    split; [reflexivity|]. split; [reflexivity|].
    intros a Ha. apply Hiff. exists "F.F."%string. eexists.
    split; [left|]. split; [reflexivity | exact Ha].
Defined.

(** *** The teams offered by [openTeamExport] *)

Lemma setAdd_elem_of set x y : y ∈ setAdd set x ↔ y ∈ set ∨ y = x.
Proof.
  unfold setAdd. destruct (includes set x) eqn:E.
  - apply includes_In in E. split; [now left|]. now intros [H| ->].
  - rewrite elem_of_app, list_elem_of_singleton. reflexivity.
Qed.

Lemma setAdd_NoDup set x : NoDup set → NoDup (setAdd set x).
Proof.
  intros H. unfold setAdd. destruct (includes set x) eqn:E; [exact H|].
  apply NoDup_app. split; [exact H|]. split; [|apply NoDup_singleton].
  intros y Hy Hx. apply list_elem_of_singleton in Hx as ->.
  apply includes_In in Hy. congruence.
Qed.

Lemma foldl_setAdd_elem_of l set y :
  y ∈ foldl setAdd set l ↔ y ∈ set ∨ y ∈ l.
Proof.
  revert set. induction l as [|x l IH]; intros set; simpl.
  - rewrite elem_of_nil. tauto.
  - rewrite IH, setAdd_elem_of, elem_of_cons. tauto.
Qed.

Lemma foldl_setAdd_NoDup l set : NoDup set → NoDup (foldl setAdd set l).
Proof.
  revert set. induction l as [|x l IH]; intros set H; simpl; [exact H|].
  now apply IH, setAdd_NoDup.
Qed.

Lemma collect_from_elem_of acts set y :
  y ∈ foldl (λ set act,
               match Act.category act with
               | Some c =>
                   if truthy c then foldl setAdd set (trim <$> split "," c)
                   else set
               | None => set
               end) set acts
  ↔ y ∈ set ∨ ∃ a, a ∈ acts ∧ y ∈ entriesOf a.
Proof.
  revert set. induction acts as [|a acts IH]; intros set; simpl.
  - split; [now left|]. intros [H|(a & Ha & _)]; [exact H|].
    now apply elem_of_nil in Ha.
  - rewrite IH.
    assert (Hstep : y ∈ match Act.category a with
                        | Some c =>
                            if truthy c
                            then foldl setAdd set (trim <$> split "," c)
                            else set
                        | None => set
                        end
                    ↔ y ∈ set ∨ y ∈ entriesOf a).
    { unfold entriesOf. destruct (Act.category a) as [c|].
      - destruct (truthy c); [apply foldl_setAdd_elem_of|].
        rewrite elem_of_nil. tauto.
      - rewrite elem_of_nil. tauto. }
    rewrite Hstep. split.
    + intros [[H|H]|(b & Hb & H)]; [now left|right..].
      * exists a. split; [left|exact H].
      * exists b. split; [now right|exact H].
    + intros [H|(b & Hb & H)]; [now left; left|].
      apply elem_of_cons in Hb as [->|Hb]; [now left; right|].
      right. eauto.
Qed.

Lemma collect_from_NoDup acts set :
  NoDup set →
  NoDup (foldl (λ set act,
                  match Act.category act with
                  | Some c =>
                      if truthy c then foldl setAdd set (trim <$> split "," c)
                      else set
                  | None => set
                  end) set acts).
Proof.
  revert set. induction acts as [|a acts IH]; intros set H; simpl; [exact H|].
  apply IH. destruct (Act.category a) as [c|]; [|exact H].
  destruct (truthy c); [now apply foldl_setAdd_NoDup | exact H].
Qed.

Lemma entriesOf_actOfTeam team a :
  team ∈ entriesOf a ↔ actOfTeam team a = true.
Proof.
  rewrite actOfTeam_spec. unfold entriesOf.
  destruct (Act.category a) as [c|].
  - destruct (truthy c) eqn:E.
    + apply truthy_iff in E. split; [eauto|].
      intros (c' & Hc & _ & H). now injection Hc as <-.
    + rewrite elem_of_nil. split; [tauto|].
      intros (c' & Hc & Hne & _). injection Hc as <-.
      apply truthy_iff in Hne. congruence.
  - rewrite elem_of_nil. split; [tauto|]. intros (c & Hc & _). discriminate.
Qed.

Lemma openTeamExport_elem_of app team :
  team ∈ openTeamExport app
  ↔ team ≠ "" ∧ ∃ a, a ∈ State.acts (App.state app) ∧ actOfTeam team a = true.
Proof.
  unfold openTeamExport. rewrite merge_sort_Permutation.
  rewrite filter_elem_of, truthy_iff. unfold collectTeams.
  rewrite collect_from_elem_of, elem_of_nil.
  split.
  - intros [[[]|(a & Ha & H)] Hne]. split; [exact Hne|].
    exists a. split; [exact Ha|]. now apply entriesOf_actOfTeam.
  - intros [Hne (a & Ha & H)]. split; [|exact Hne].
    right. exists a. split; [exact Ha|]. now apply entriesOf_actOfTeam.
Qed.

(** X21. [openTeamExport] offers exactly the teams whose export is not
    empty: a team is among the options if and only if
    [handleTeamExportSubmit] for it selects at least one act. *)
Theorem openTeamExport_offers_teams_with_acts app team :
  team ∈ openTeamExport app
  ↔ ∃ selected,
      handleTeamExportSubmit app team = Some selected ∧ selected ≠ [].
Proof.
  rewrite openTeamExport_elem_of. unfold handleTeamExportSubmit. split.
  - intros [Hne (a & Ha & Hact)].
    rewrite (truthy_nonempty _ Hne). simpl. eexists. split; [reflexivity|].
    intros Hnil.
    assert (Hin : a ∈ List.filter (actOfTeam team) (State.acts (App.state app)))
      by (apply filter_elem_of; now split).
    rewrite Hnil in Hin. now apply elem_of_nil in Hin.
  - intros (selected & Hsel & Hne).
    destruct (truthy team) eqn:Ht; simpl in Hsel; [|discriminate].
    injection Hsel as <-. split; [now apply truthy_iff|].
    destruct (List.filter _ _) as [|a l] eqn:Hf; [congruence|].
    assert (Hin : a ∈ List.filter (actOfTeam team) (State.acts (App.state app)))
      by (rewrite Hf; left).
    apply filter_elem_of in Hin. eauto.
Qed.

(** X22. The options of [openTeamExport] are in ascending code-unit order
    without repetition, and each one is a team name: not empty, without
    white space at either end, without comma. *)
Theorem openTeamExport_sorted_distinct app :
  StronglySorted String.le (openTeamExport app)
  ∧ NoDup (openTeamExport app)
  ∧ Forall teamName (openTeamExport app).
Proof.
  split; [|split].
  - apply StronglySorted_merge_sort; apply _.
  - unfold openTeamExport. rewrite merge_sort_Permutation.
    apply NoDup_ListNoDup, List.NoDup_filter, NoDup_ListNoDup.
    apply collect_from_NoDup, NoDup_nil_2.
  - apply Forall_forall. intros team Hteam.
    apply openTeamExport_elem_of in Hteam as [Hne (a & _ & Hact)].
    apply actOfTeam_spec in Hact as (c & _ & _ & Hin).
    apply list_elem_of_fmap in Hin as (p & -> & Hp).
    split; [exact Hne|]. split; [apply trim_idempotent|].
    apply split_hasNo, trim_hasNo. eapply split_pieces, Hp.
Qed.

Lemma openTeamExport_sample :
  openTeamExport sampleApp
  = ["Dream Quartet"; "Exits"; "F.F."; "Orca Rhapsodia"; "Pioniere";
     "Squash!"; "Tokyo Vocal Express"; "Ultra L"; "Vocal Tompectrum"].
Proof. reflexivity. Qed.

(** ** The order of an export *)

Section ExportOrderFacts.
Variable stages : list Stage.t.

Lemma exportCompare_spec a b c :
  exportCompare stages a b = Some c
  ↔ (findIndex stages (Act.stageId a) ≠ findIndex stages (Act.stageId b)
     ∧ c = findIndex stages (Act.stageId a) - findIndex stages (Act.stageId b))
    ∨ (findIndex stages (Act.stageId a) = findIndex stages (Act.stageId b)
       ∧ ∃ ma mb, minuteOfDay (Act.startTime a) = Some ma
                  ∧ minuteOfDay (Act.startTime b) = Some mb
                  ∧ c = ma - mb).
Proof.
  unfold exportCompare, minuteOfDay. cbv zeta.
  destruct (Z.eqb_spec (findIndex stages (Act.stageId a))
                       (findIndex stages (Act.stageId b))) as [E|E]; simpl.
  - split.
    + intros H. right. split; [exact E|].
      destruct (parseTime (Act.startTime a)) as [[aH aM]|]; [|discriminate].
      destruct (parseTime (Act.startTime b)) as [[bH bM]|]; [|discriminate].
      simpl in *. injection H as <-. eauto.
    + intros [[Hne _]|(_ & ma & mb & Ha & Hb & ->)]; [contradiction|].
      destruct (parseTime (Act.startTime a)) as [[aH aM]|]; [|discriminate].
      destruct (parseTime (Act.startTime b)) as [[bH bM]|]; [|discriminate].
      simpl in *. congruence.
  - split.
    + intros H. injection H as <-. now left.
    + intros [[_ ->]|[Heq _]]; [reflexivity | contradiction].
Qed.

Lemma exportCompare_le a b c :
  exportCompare stages a b = Some c → (c <= 0 ↔ exportLe stages a b).
Proof.
  intros H. apply exportCompare_spec in H.
  unfold exportLe.
  destruct H as [[Hne ->]|(Heq & ma & mb & Ha & Hb & ->)].
  - split; [intros; left; lia|].
    intros [Hlt|[Heq _]]; [lia | contradiction].
  - split.
    + intros Hle. right. split; [exact Heq|]. exists ma, mb.
      repeat split; auto. lia.
    + intros [Hlt|(_ & ma' & mb' & Ha' & Hb' & Hle)]; [lia|].
      assert (ma' = ma) by congruence. assert (mb' = mb) by congruence. lia.
Qed.

Lemma exportCompare_flip a b c :
  exportCompare stages a b = Some c → exportCompare stages b a = Some (- c).
Proof.
  intros H. apply exportCompare_spec in H. apply exportCompare_spec.
  destruct H as [[Hne ->]|(Heq & ma & mb & Ha & Hb & ->)].
  - left. split; [congruence | lia].
  - right. split; [congruence|]. exists mb, ma. repeat split; auto. lia.
Qed.

Lemma exportCompare_total a b :
  is_Some (minuteOfDay (Act.startTime a)) →
  is_Some (minuteOfDay (Act.startTime b)) →
  is_Some (exportCompare stages a b).
Proof.
  intros [ma Ha] [mb Hb].
  destruct (decide (findIndex stages (Act.stageId a)
                    = findIndex stages (Act.stageId b))) as [E|E].
  - exists (ma - mb). apply exportCompare_spec. right. eauto 10.
  - eexists. apply exportCompare_spec. left. eauto.
Qed.

#[local] Instance exportLe_trans : Transitive (exportLe stages).
Proof.
  intros a b c [H1|(E1 & ma & mb & Ha & Hb & Hab)]
               [H2|(E2 & mb' & mc & Hb' & Hc & Hbc)]; unfold exportLe.
  - left. lia.
  - left. lia.
  - left. lia.
  - right. split; [congruence|]. exists ma, mc.
    assert (mb' = mb) by congruence. repeat split; auto. lia.
Qed.

Lemma exportInsert_perm x l r :
  exportInsert stages x l = Some r → r ≡ₚ x :: l.
Proof.
  revert r. induction l as [|y l IH]; intros r H; simpl in H.
  - now injection H as <-.
  - destruct (exportCompare stages x y) as [c|]; [|discriminate].
    simpl in H. destruct (c <=? 0); [now injection H as <-|].
    destruct (exportInsert stages x l) as [r'|]; [|discriminate].
    simpl in H. injection H as <-.
    rewrite (IH r' eq_refl). apply Permutation_swap.
Qed.

Lemma exportInsert_sorted x l r :
  StronglySorted (exportLe stages) l →
  exportInsert stages x l = Some r →
  StronglySorted (exportLe stages) r.
Proof.
  revert r. induction l as [|y l IH]; intros r Hl H; simpl in H.
  - injection H as <-. repeat constructor.
  - destruct (exportCompare stages x y) as [c|] eqn:Hc; [|discriminate].
    simpl in H. destruct (Z.leb_spec c 0) as [Hle|Hgt].
    + injection H as <-.
      apply StronglySorted_inv in Hl as [Hl Hy].
      assert (Hxy : exportLe stages x y) by now apply (exportCompare_le x y c).
      constructor; [now constructor|].
      constructor; [exact Hxy|].
      eapply Forall_impl; [exact Hy|]. intros z Hz. now transitivity y.
    + destruct (exportInsert stages x l) as [r'|] eqn:Hins; [|discriminate].
      simpl in H. injection H as <-.
      apply StronglySorted_inv in Hl as [Hl Hy].
      constructor; [now apply IH|].
      rewrite (exportInsert_perm _ _ _ Hins).
      constructor; [|exact Hy].
      apply (exportCompare_le y x (- c)); [now apply exportCompare_flip | lia].
Qed.

Lemma exportInsert_total x l :
  is_Some (minuteOfDay (Act.startTime x)) →
  Forall (λ a, is_Some (minuteOfDay (Act.startTime a))) l →
  is_Some (exportInsert stages x l).
Proof.
  intros Hx. induction 1 as [|y l Hy Hl IH]; simpl; [eauto|].
  destruct (exportCompare_total x y Hx Hy) as [c ->]. simpl.
  destruct (c <=? 0); [eauto|]. destruct IH as [r' ->]. simpl. eauto.
Qed.

(** X23. When the start times of the acts can be read, the sort of
    [generateSpecializedExport] returns all the acts, each as often as it
    was given, ordered by the index of their stage in the schedule and, on
    the same stage, by start minute. An act whose stage is not in the
    schedule has index -1 and comes before the others. *)
Theorem exportSort_sorts acts :
  Forall (λ a, is_Some (minuteOfDay (Act.startTime a))) acts →
  ∃ sorted,
    exportSort stages acts = Some sorted
    ∧ sorted ≡ₚ acts
    ∧ StronglySorted (exportLe stages) sorted.
Proof.
  induction 1 as [|x l Hx Hl (sorted & Hs & Hperm & Hsorted)]; simpl.
  - exists []. repeat split; constructor.
  - rewrite Hs. simpl.
    destruct (exportInsert_total x sorted Hx) as [r Hr].
    { now rewrite Hperm. }
    exists r. split; [exact Hr|]. split.
    + rewrite (exportInsert_perm _ _ _ Hr). now constructor.
    + eapply exportInsert_sorted; eauto.
Qed.

Lemma exportTie_spec a b :
  exportTie stages a b = true
  ↔ findIndex stages (Act.stageId a) = findIndex stages (Act.stageId b)
    ∧ ∃ m, minuteOfDay (Act.startTime a) = Some m
           ∧ minuteOfDay (Act.startTime b) = Some m.
Proof.
  unfold exportTie.
  destruct (exportCompare stages a b) as [c|] eqn:Hc.
  - apply exportCompare_spec in Hc.
    destruct Hc as [[Hne ->]|(Heq & ma & mb & Ha & Hb & ->)].
    + split.
      * destruct (_ - _) eqn:E; try discriminate. lia.
      * intros [Heq _]. contradiction.
    + split.
      * destruct (ma - mb) eqn:E; try discriminate. intros _.
        split; [exact Heq|]. exists ma. split; [exact Ha|].
        rewrite Hb. f_equal. lia.
      * intros (_ & m & Ha' & Hb').
        assert (ma = mb) as -> by congruence. now rewrite Z.sub_diag.
  - split; [discriminate|]. intros (Heq & m & Ha & Hb).
    assert (exportCompare stages a b = Some (m - m)) as H.
    { apply exportCompare_spec. right. eauto 10. }
    congruence.
Qed.

Lemma exportInsert_filter a x l r :
  exportInsert stages x l = Some r →
  List.filter (exportTie stages a) r = List.filter (exportTie stages a) (x :: l).
Proof.
  revert r. induction l as [|y l IH]; intros r H; simpl in H.
  - now injection H as <-.
  - destruct (exportCompare stages x y) as [c|] eqn:Hc; [|discriminate].
    simpl in H. destruct (Z.leb_spec c 0) as [Hle|Hgt];
      [now injection H as <-|].
    destruct (exportInsert stages x l) as [r'|]; [|discriminate].
    simpl in H. injection H as <-.
    specialize (IH r' eq_refl). simpl in *. rewrite IH.
    destruct (exportTie stages a y) eqn:Hy;
      destruct (exportTie stages a x) eqn:Hx; try reflexivity.
    exfalso.
    apply exportTie_spec in Hx as (Ex & m & Ha & Hmx).
    apply exportTie_spec in Hy as (Ey & m' & Ha' & Hmy).
    assert (m' = m) as -> by congruence.
    assert (H0 : exportCompare stages x y = Some (m - m)).
    { apply exportCompare_spec. right. split; [congruence|]. eauto 10. }
    rewrite Z.sub_diag in H0. assert (c = 0) by congruence. lia.
Qed.

(** X24. The sort of [generateSpecializedExport] is stable in the model as
    in the source: acts that tie, on the same stage at the same start
    minute, come out in the order in which they went in. *)
Theorem exportSort_stable acts sorted a :
  exportSort stages acts = Some sorted →
  List.filter (exportTie stages a) sorted
  = List.filter (exportTie stages a) acts.
Proof.
  revert sorted. induction acts as [|x l IH]; intros sorted H; simpl in H.
  - now injection H as <-.
  - destruct (exportSort stages l) as [s|]; [|discriminate]. simpl in H.
    rewrite (exportInsert_filter a x s sorted H). simpl.
    now rewrite (IH s eq_refl).
Qed.
End ExportOrderFacts.

Lemma exportSort_sorts_witness :
  ∃ sorted,
    exportSort (State.stages sampleState)
      [Act.mk "act-9" "stage-2" "Late" "15:00" "16:00" "#f59e0b" None;
       showcase; dreamQuartetAgain;
       Act.mk "act-0" "stage-7" "Lost" "20:00" "21:00" "#f59e0b" None;
       dreamQuartet]
    = Some sorted
    ∧ Act.id <$> sorted
      = ["act-0"; "act-1767264350836"; "act-1767264392253";
         "act-1767265793673"; "act-9"]
    ∧ exportStageName (State.stages sampleState)
      <$> sorted
      = ["Unknown"; "Day1"; "Day1"; "Day1"; "Day2"].
Proof.
  destruct (exportSort_sorts (State.stages sampleState)
              [Act.mk "act-9" "stage-2" "Late" "15:00" "16:00" "#f59e0b" None;
               showcase; dreamQuartetAgain;
               Act.mk "act-0" "stage-7" "Lost" "20:00" "21:00" "#f59e0b" None;
               dreamQuartet]) as (sorted & Hs & _ & _).
  - repeat constructor; eexists; reflexivity.
  - exists sorted. split; [exact Hs|].
    vm_compute in Hs. injection Hs as <-. split; reflexivity.
Defined.

Lemma exportSort_stable_witness :
  let first := Act.mk "act-a" "stage-1" "A" "10:00" "11:00" "#3b82f6" None in
  let second := Act.mk "act-b" "stage-1" "B" "10:00" "10:30" "#3b82f6" None in
  ∃ sorted,
    exportSort (State.stages sampleState) [dreamQuartet; first; second]
    = Some sorted
    ∧ List.filter (exportTie (State.stages sampleState) first) sorted
      = [first; second].
Proof.
  intros first second. eexists. split; [reflexivity|].
  exact (exportSort_stable (State.stages sampleState)
           [dreamQuartet; first; second] _ first eq_refl).
Defined.

(** ** File names of images *)






Lemma downloadImage_sample :
  downloadImage "SBF_Schedule_F.F." = "SBF_Schedule_F_F_.png"
  ∧ downloadImage "SBF_Schedule_F-F!" = "SBF_Schedule_F_F_.png".
Proof. split; reflexivity. Qed.

(** ** Numbers as text and back *)

Lemma digit_value_char d :
  0 <= d < 10 → digit_value (digit_char d) = Some d.
Proof.
  intros Hd.
  assert (H : (match digit_value (digit_char d) with
               | Some r => r =? d
               | None => false
               end) = true).
  { revert d Hd.
    apply (below_forallb
             (λ d, match digit_value (digit_char d) with
                   | Some r => r =? d
                   | None => false
                   end) 10).
    reflexivity. }
  destruct (digit_value (digit_char d)) as [r|]; [|discriminate].
  apply Z.eqb_eq in H. congruence.
Qed.

Lemma digit_char_visible d :
  0 <= d < 10 →
  isWhiteSpace (digit_char d) = false
  ∧ digit_char d ≠ "-"%char ∧ digit_char d ≠ "+"%char.
Proof.
  intros Hd.
  assert (H : (negb (isWhiteSpace (digit_char d))
               && negb (Ascii.eqb (digit_char d) "-")
               && negb (Ascii.eqb (digit_char d) "+")) = true).
  { revert d Hd.
    apply (below_forallb
             (λ d, negb (isWhiteSpace (digit_char d))
                   && negb (Ascii.eqb (digit_char d) "-")
                   && negb (Ascii.eqb (digit_char d) "+")) 10).
    reflexivity. }
  apply andb_prop in H as [H H3]. apply andb_prop in H as [H1 H2].
  apply negb_true_iff in H1, H2, H3.
  apply Ascii.eqb_neq in H2, H3. auto.
Qed.

Lemma digits_of_S f n acc :
  digits_of (S f) n acc
  = if n <? 10 then String (digit_char (n mod 10)) acc
    else digits_of f (n / 10) (String (digit_char (n mod 10)) acc).
Proof. reflexivity. Qed.

Lemma digits_prefix_cons c rest acc :
  digits_prefix (String c rest) acc
  = match digit_value c with
    | Some d => digits_prefix rest (Some (10 * default 0 acc + d))
    | None => acc
    end.
Proof. reflexivity. Qed.

(** Reading the digits written for [n] gives [n], and then goes on with
    what follows. *)
Lemma digits_prefix_digits_of f n acc :
  0 <= n < 10 ^ Z.of_nat (S f) →
  digits_prefix (digits_of (S f) n acc) None = digits_prefix acc (Some n).
Proof.
  revert n acc. induction f as [|f IH]; intros n acc Hn;
    rewrite digits_of_S; destruct (Z.ltb_spec n 10) as [Hlt|Hge].
  - rewrite digits_prefix_cons, Z.mod_small, digit_value_char by lia.
    reflexivity.
  - change (10 ^ Z.of_nat 1) with 10 in Hn. lia.
  - rewrite digits_prefix_cons, Z.mod_small, digit_value_char by lia.
    reflexivity.
  - rewrite IH.
    + rewrite digits_prefix_cons.
      rewrite digit_value_char by (apply Z.mod_pos_bound; lia).
      change (default 0 (Some (n / 10))) with (n / 10).
      f_equal. f_equal. pose proof (Z.div_mod n 10). lia.
    + split; [apply Z.div_pos; lia|].
      apply Z.div_lt_upper_bound; [lia|].
      replace (Z.of_nat (S (S f))) with (Z.succ (Z.of_nat (S f))) in Hn by lia.
      rewrite Z.pow_succ_r in Hn by lia. lia.
Qed.

Lemma digits_of_head f n acc :
  ∃ d rest, 0 <= d < 10 ∧ digits_of (S f) n acc = String (digit_char d) rest.
Proof.
  revert n acc. induction f as [|f IH]; intros n acc;
    rewrite digits_of_S; destruct (n <? 10).
  - exists (n mod 10). eexists.
    split; [apply Z.mod_pos_bound; lia | reflexivity].
  - exists (n mod 10). eexists.
    split; [apply Z.mod_pos_bound; lia | reflexivity].
  - exists (n mod 10). eexists.
    split; [apply Z.mod_pos_bound; lia | reflexivity].
  - apply IH.
Qed.

Lemma enough_fuel n :
  0 <= n → 0 <= n < 10 ^ Z.of_nat (S (Z.to_nat (Z.log2 n))).
Proof.
  intros Hn. split; [exact Hn|].
  destruct (Z.eq_dec n 0) as [->|Hne]; [reflexivity|].
  pose proof (Z.log2_nonneg n) as Hlog.
  replace (Z.of_nat (S (Z.to_nat (Z.log2 n)))) with (Z.succ (Z.log2 n)) by lia.
  pose proof (Z.log2_spec n ltac:(lia)) as [_ Hhi].
  eapply Z.lt_le_trans; [exact Hhi|].
  apply Z.pow_le_mono_l. lia.
Qed.

(** [parseInt(String(n), 10)] is [n], for every integer. *)
Lemma parseInt_toString n : parseInt (toString n) = Some n.
Proof.
  unfold toString. destruct (Z.ltb_spec n 0) as [Hneg|Hpos].
  - unfold parseInt.
    change (trimStart (String "-" ?x)) with (String "-" x).
    cbv iota beta.
    rewrite digits_prefix_digits_of by (apply enough_fuel; lia).
    change (Z.opp <$> Some (- n) = Some n). simpl. f_equal. lia.
  - destruct (digits_of_head (Z.to_nat (Z.log2 n)) n "")
      as (d & rest & Hd & Hhead).
    destruct (digit_char_visible d Hd) as (Hws & Hminus & Hplus).
    assert (Hgo : digits_prefix (String (digit_char d) rest) None = Some n).
    { rewrite <- Hhead.
      now rewrite digits_prefix_digits_of by (apply enough_fuel; lia). }
    unfold parseInt. rewrite Hhead.
    assert (Htrim : trimStart (String (digit_char d) rest)
                    = String (digit_char d) rest).
    { apply trimStart_fixed. exact Hws. }
    rewrite Htrim.
    generalize dependent (digit_char d). intros c _ Hws Hminus Hplus Hgo _.
    destruct c as [b0 b1 b2 b3 b4 b5 b6 b7].
    destruct b0, b1, b2, b3, b4, b5, b6, b7; try exact Hgo; congruence.
Qed.

(** ** The settings form *)

(** X26. Opening the settings and submitting the form as it is leaves
    everything but the saved copy as it was: the two fields are read back
    as the hours that were written, so [CONFIG] is unchanged whether the
    window is ordered or not, and so are stages, acts and members. *)
Theorem settings_form_round_trip app :
  ∃ app',
    afterSettings app
      (handleSettingsSubmit app (fst (openSettings app)) (snd (openSettings app)))
    = Some app'
    ∧ App.CONFIG app' = App.CONFIG app
    ∧ State.stages (App.state app') = State.stages (App.state app)
    ∧ State.acts (App.state app') = State.acts (App.state app)
    ∧ State.members (App.state app') = State.members (App.state app)
    ∧ (¬ windowOrdered (App.CONFIG app) → app' = app).
Proof.
  unfold handleSettingsSubmit, openSettings. simpl.
  rewrite !parseInt_toString. simpl.
  destruct (Z.geb_spec (Config.startHour (App.CONFIG app))
                       (Config.endHour (App.CONFIG app))) as [Hge|Hlt].
  - exists app. repeat split; auto.
  - eexists. split; [reflexivity|].
    rewrite saveState_CONFIG, saveState_stages, saveState_acts,
      saveState_members.
    unfold with_window. simpl. destruct (App.CONFIG app). simpl.
    repeat split; auto. unfold windowOrdered. simpl in *. lia.
Qed.

(** ** Reloading the page *)

Lemma mergeConfig_of_state old st :
  mergeConfig old (Stored.config (Stored.of_state st)) = State.config st.
Proof. simpl. now destruct (State.config st). Qed.

(** X27. What an editable session saves, the next start restores: after
    [saveState], starting up from the stored snapshot, on top of any
    built-in state, gives the state that was saved, and [applyConfig]
    brings the window of [CONFIG] back to the one that was in use. *)
Theorem init_restores_saved_state app fresh :
  App.isReadOnly app = false →
  let saved := Stored.of_state <$> App.localStorage (saveState app) in
  let app' := init fresh saved in
  App.state app' = App.state (saveState app)
  ∧ State.acts (App.state app') = State.acts (App.state app)
  ∧ State.stages (App.state app') = State.stages (App.state app)
  ∧ State.members (App.state app') = State.members (App.state app)
  ∧ Config.startHour (App.CONFIG app') = Config.startHour (App.CONFIG app)
  ∧ Config.endHour (App.CONFIG app') = Config.endHour (App.CONFIG app)
  ∧ App.isReadOnly app' = false.
Proof.
  intros Hrw saved app'. subst saved app'.
  unfold init, applyConfig, loadState, saveState. rewrite Hrw. simpl.
  repeat split.
Qed.

Lemma init_restores_saved_state_witness :
  let fresh :=
    App.mk defaultCONFIG
      (State.mk (StateConfig.mk 9 22) [Stage.mk "stage-1" "Main Stage"] [] [])
      (DragState.mk None 0%float) false None in
  let used := with_window sampleApp 10 23 in
  App.state (init fresh (Stored.of_state <$> App.localStorage (saveState used)))
  = App.state (saveState used)
  ∧ Config.startHour
      (App.CONFIG
         (init fresh (Stored.of_state <$> App.localStorage (saveState used))))
    = 10.
Proof.
  intros fresh used.
  destruct (init_restores_saved_state used fresh eq_refl)
    as (Hstate & _ & _ & _ & Hstart & _).
  split; [exact Hstate | exact Hstart].
Defined.

(** A snapshot that lacks a key keeps the built-in value for it, and one
    that holds [null] for an array gets the empty array. *)
Lemma loadState_partial app w acts :
  let app' :=
    loadState app (Some (Stored.mk (Present (Stored.mkWindow None (Some w)))
                                   Absent (Present acts) Null)) in
  State.stages (App.state app') = State.stages (App.state app)
  ∧ State.acts (App.state app') = acts
  ∧ State.members (App.state app') = []
  ∧ State.config (App.state app')
    = StateConfig.mk (StateConfig.startHour (State.config (App.state app))) w.
Proof. repeat split. Qed.

Lemma openTeamExport_offers_teams_with_acts_witness :
  "Pioniere" ∈ openTeamExport sampleApp
  ∧ ¬ "Malwoofer" ∈ openTeamExport sampleApp.
Proof.
  split.
  - apply (openTeamExport_offers_teams_with_acts sampleApp "Pioniere").
    eexists. split; [reflexivity | discriminate].
  - intros H.
    apply (openTeamExport_offers_teams_with_acts sampleApp "Malwoofer") in H
      as (selected & Hsel & Hne).
    vm_compute in Hsel. injection Hsel as <-. now apply Hne.
Defined.

Lemma openTeamExport_sorted_distinct_witness :
  NoDup (openTeamExport sampleApp)
  ∧ Forall teamName (openTeamExport sampleApp).
Proof. exact (proj2 (openTeamExport_sorted_distinct sampleApp)). Defined.


Lemma settings_form_round_trip_witness :
  ∃ app',
    afterSettings sampleApp (handleSettingsSubmit sampleApp "9" "22")
    = Some app'
    ∧ App.CONFIG app' = defaultCONFIG.
Proof.
  destruct (settings_form_round_trip sampleApp) as (app' & Hret & Hcfg & _).
  exists app'. split; [exact Hret | exact Hcfg].
Defined.

(** ** The act form *)

(** X28. Opening an act in the form and submitting the form as it is
    changes nothing but a missing category, which becomes the empty one:
    for the first act with its id, a non-empty one, every act that has a
    category is left exactly as it was. (The fields give back the text
    that [openEditModal] wrote.) *)
Theorem act_form_round_trip app i act color now :
  Act.id act ≠ "" →
  list_find (λ a, Act.id a = Act.id act) (State.acts (App.state app))
  = Some (i, act) →
  ∃ app',
    handleActSubmit app (openEditModal (Some act) color) now = Some app'
    ∧ State.acts (App.state app') !! i
      = Some (Act.mk (Act.id act) (Act.stageId act) (Act.name act)
                     (Act.startTime act) (Act.endTime act) (Act.color act)
                     (Some (default "" (Act.category act))))
    ∧ (∀ j, j ≠ i →
            State.acts (App.state app') !! j = State.acts (App.state app) !! j)
    ∧ (is_Some (Act.category act) →
       State.acts (App.state app') = State.acts (App.state app)).
Proof.
  intros Hid Hfind.
  pose proof Hfind as (Hi & _ & _)%list_find_Some.
  unfold handleActSubmit. cbv zeta.
  change (ActForm.id (openEditModal (Some act) color)) with (Act.id act).
  rewrite (truthy_nonempty _ Hid), Hfind.
  eexists. split; [reflexivity|].
  rewrite saveState_acts. simpl.
  assert (Hcat : (match Act.category act with
                  | Some c => if truthy c then c else ""
                  | None => ""
                  end) = default "" (Act.category act)).
  { destruct (Act.category act) as [[|c s]|]; reflexivity. }
  rewrite Hcat.
  split; [apply list_lookup_insert_eq; eapply lookup_lt_Some, Hi|].
  split; [intros j Hj; apply list_lookup_insert_ne; congruence|].
  intros [c Hc]. apply list_insert_id. rewrite Hi. f_equal.
  destruct act. simpl in *. now rewrite Hc.
Qed.

Lemma act_form_round_trip_witness :
  ∃ app',
    handleActSubmit sampleApp (openEditModal (Some showcase) "#ef4444")
      1768400000000 = Some app'
    ∧ State.acts (App.state app') = State.acts sampleState.
Proof.
  destruct (act_form_round_trip sampleApp 2 showcase "#ef4444" 1768400000000)
    as (app' & Hret & _ & _ & Hsame).
  - discriminate.
  - reflexivity.
  - exists app'. split; [exact Hret|]. apply Hsame. eexists. reflexivity.
Defined.
